(** * SmartCacheing: a shallow embedding of [core/core.py]

    The development follows the Python module class by class:
    [CacheItem], [CacheItemFactory], [CacheItemBuilder], [Cache] and
    [CacheService].  Python code that reads the clock, writes to a logger,
    bumps the class attribute [CacheItemFactory.BASE_ID], mutates the
    storage dictionary or raises is written in a state-and-exception
    monad [M] over a [World]. *)

From Stdlib Require Import ZArith Arith Bool String List Lia.
Import ListNotations.
Open Scope string_scope.
Open Scope list_scope.
Open Scope Z_scope.
Set Warnings "-register-all".

(** ** Exceptions and results *)

Inductive Exn : Type :=
| AttributeError (cls attr : string)
| TypeError (msg : string)
| ValueError (msg : string)
| KeyError (key : string)
| RuntimeError (msg : string)
| OverflowError (msg : string)
| OSError (msg : string)
| KeyboardInterrupt
| SystemExit.

(** The classes that derive from [Exception]; [KeyboardInterrupt] and
    [SystemExit] derive from [BaseException] only. *)
Definition is_Exception (e : Exn) : bool :=
  match e with
  | KeyboardInterrupt | SystemExit => false
  | _ => true
  end.

Inductive Outcome (A : Type) : Type :=
| Return (a : A)
| Raise (e : Exn).
Arguments Return {A} a.
Arguments Raise {A} e.

(** ** Python values

    The cache stores values of type [Any].  The universe below holds the
    built-in values the module is used with: [None], booleans, integers,
    strings, lists, dictionaries (in insertion order) and plain objects,
    which are compared by identity; and instances of user-defined
    classes, as far as the cache can tell them apart: by what the lookup
    of their attribute [__contains__] meets and by what [key in value]
    does on them: it raises [failure] when there is one, and otherwise
    tells whether [key] equals one of [members].  Such an instance keeps
    the equality and the hash of [object]. *)

(** What [getattr(value, "__contains__")] meets on an instance of a
    user-defined class: the attribute, no such attribute, or an exception
    raised by the class's [__getattr__] or [__getattribute__]. *)
Inductive Probe : Type :=
| Found
| Missing
| Broken (e : Exn).

Inductive PyVal : Type :=
| PNone
| PBool (b : bool)
| PInt (z : Z)
| PStr (s : string)
| PList (l : list PyVal)
| PDict (d : list (PyVal * PyVal))
| PObject (addr : nat)
| PCustom (addr : nat) (probe : Probe)
          (members : list PyVal) (failure : option Exn).

Definition int_of_bool (b : bool) : Z := if b then 1 else 0.

(** Python's [==] on the universe: [True == 1], lists are compared element
    by element, dictionaries key by key whatever the insertion order. *)
Fixpoint py_eq (a b : PyVal) {struct a} : bool :=
  match a, b with
  | PNone, PNone => true
  | PBool x, PBool y => Bool.eqb x y
  | PBool x, PInt y => int_of_bool x =? y
  | PInt x, PBool y => x =? int_of_bool y
  | PInt x, PInt y => x =? y
  | PStr x, PStr y => String.eqb x y
  | PList xs, PList ys =>
      (fix all2 (l r : list PyVal) : bool :=
         match l, r with
         | [], [] => true
         | x :: l', y :: r' => py_eq x y && all2 l' r'
         | _, _ => false
         end) xs ys
  | PDict d1, PDict d2 =>
      (length d1 =? length d2)%nat &&
      (fix every (d : list (PyVal * PyVal)) : bool :=
         match d with
         | [] => true
         | (k, v) :: d' =>
             (fix find (e : list (PyVal * PyVal)) : bool :=
                match e with
                | [] => false
                | (k', v') :: e' => if py_eq k k' then py_eq v v' else find e'
                end) d2 && every d'
         end) d1
  | PObject m, PObject n => Nat.eqb m n
  | PCustom m _ _ _, PCustom n _ _ _ => Nat.eqb m n
  | _, _ => false
  end.

(** [hash(x)] succeeds on everything but lists and dictionaries. *)
Definition py_hashable (x : PyVal) : bool :=
  match x with
  | PList _ | PDict _ => false
  | _ => true
  end.

(** [hasattr(value, "__contains__")]: strings, lists and dictionaries
    define [__contains__]; [None], [bool], [int] and [object] do not.
    [hasattr] turns an [AttributeError] of the lookup into [False] and
    lets every other exception of the lookup out. *)
Definition py_hasattr_contains (value : PyVal) : Outcome bool :=
  match value with
  | PStr _ | PList _ | PDict _ => Return true
  | PCustom _ Found _ _ => Return true
  | PCustom _ Missing _ _ => Return false
  | PCustom _ (Broken (AttributeError _ _)) _ _ => Return false
  | PCustom _ (Broken e) _ _ => Raise e
  | _ => Return false
  end.

(** [k in s] on strings is the substring test. *)
Fixpoint is_substring (k s : string) : bool :=
  String.prefix k s ||
  match s with
  | EmptyString => false
  | String _ s' => is_substring k s'
  end.

(** [key in value], the operator as Python evaluates it on the universe. *)
Definition py_in (key value : PyVal) : Outcome bool :=
  match value with
  | PStr s =>
      match key with
      | PStr k => Return (is_substring k s)
      | _ => Raise (TypeError "'in <string>' requires string as left operand")
      end
  | PList l => Return (existsb (fun e => py_eq e key) l)
  | PDict d =>
      if py_hashable key
      then Return (existsb (fun kv => py_eq (fst kv) key) d)
      else Raise (TypeError "unhashable type")
  | PCustom _ _ members failure =>
      match failure with
      | Some e => Raise e
      | None => Return (existsb (fun m => py_eq m key) members)
      end
  | _ => Raise (TypeError "argument is not iterable")
  end.

(** ** Time and logging, the two external collaborators *)

(** Modelled from the spec: the module [DateUtil] is imported, not part of
    the repository.  The spec asks of it [now() -> timestamp] and
    [now() + duration -> timestamp], comparable with [<] and [>].
    A timestamp is a number of microseconds, the resolution of
    [datetime]. *)
Definition timestamp : Type := Z.

Definition DateUtil_increment (amount : Z) (obj : timestamp) : timestamp :=
  obj + amount * 1000000.

(** Modelled from the spec: the module [Logger] is imported, not part of
    the repository.  The spec asks of it [info], [warning] and [debug],
    fire and forget.  A record keeps the name the logger was created with,
    the level and the message; an f-string is kept as its literal pieces
    and the values interpolated between them. *)
Inductive Level : Type := INFO | WARNING | DEBUG.

Inductive Piece : Type :=
| Lit (s : string)
| Fmt (v : PyVal).

Record LogRecord : Type := mkLog {
  logger_name : string;
  level : Level;
  message : list Piece
}.

(** ** The world and the monad *)

(** The dictionary [Cache._storage]: integer ids to entries, kept in
    insertion order as Python's [dict] is. *)
Section Dict.
Context {V : Type}.

Definition dict : Type := list (Z * V).

Fixpoint dict_get (k : Z) (d : dict) : option V :=
  match d with
  | [] => None
  | (k', v) :: d' => if k' =? k then Some v else dict_get k d'
  end.

(** [d[k] = v]: an existing key keeps its place, a new one goes last. *)
Fixpoint dict_setitem (k : Z) (v : V) (d : dict) : dict :=
  match d with
  | [] => [(k, v)]
  | (k', v') :: d' =>
      if k' =? k then (k, v) :: d' else (k', v') :: dict_setitem k v d'
  end.

(** What [d.pop(k, None)] leaves in [d]. *)
Fixpoint dict_remove (k : Z) (d : dict) : dict :=
  match d with
  | [] => []
  | (k', v') :: d' =>
      if k' =? k then d' else (k', v') :: dict_remove k d'
  end.

Definition dict_keys (d : dict) : list Z := map fst d.
Definition dict_values (d : dict) : list V := map snd d.
Definition dict_len (d : dict) : Z := Z.of_nat (length d).
End Dict.
Arguments dict V : clear implicits.

(** The key an arbitrary object selects in a dictionary whose keys are
    integers: an [int] itself, a [bool] as 0 or 1, nothing for any other
    hashable object; hashing a list or a dictionary raises. *)
Definition int_key (key : PyVal) : Outcome (option Z) :=
  match key with
  | PInt z => Return (Some z)
  | PBool b => Return (Some (int_of_bool b))
  | PList _ | PDict _ => Raise (TypeError "unhashable type")
  | _ => Return None
  end.

(** The five attributes [CacheItem.__init__] sets on an instance. *)
Record CacheItem : Type := mkCacheItem {
  _created_at : timestamp;
  _expires_at : timestamp;
  _id : Z;
  _time_to_live : Z;
  _value : PyVal
}.

Definition CacheItem_instance_attributes : list string :=
  ["_created_at"; "_expires_at"; "_id"; "_time_to_live"; "_value"].

(** The names the class body of [CacheItem] defines: properties and
    methods. *)
Definition CacheItem_class_attributes : list string :=
  ["created_at"; "expires_at"; "id"; "time_to_live"; "value";
   "__init__"; "__contains__"; "__repr__"; "__str__";
   "contains_key"; "get"; "is_expired"].

(** [hasattr(item, name)] for an instance of [CacheItem]. *)
Definition CacheItem_hasattr (name : string) : bool :=
  existsb (String.eqb name)
          (CacheItem_instance_attributes ++ CacheItem_class_attributes).

Definition with_expires_at (self : CacheItem) (value : timestamp) : CacheItem :=
  mkCacheItem (_created_at self) value (_id self) (_time_to_live self) (_value self).

Record World : Type := mkWorld {
  clock : nat -> timestamp;       (* what the n-th call of DateUtil.now() returns *)
  now_calls : nat;                (* calls of DateUtil.now() so far *)
  BASE_ID : Z;                    (* the class attribute CacheItemFactory.BASE_ID *)
  records : list LogRecord;       (* everything logged so far, oldest first *)
  storage : dict CacheItem      (* Cache._storage *)
}.

Definition M (A : Type) : Type := World -> Outcome A * World.

Definition ret {A} (a : A) : M A := fun w => (Return a, w).

Definition bind {A B} (m : M A) (k : A -> M B) : M B :=
  fun w =>
    match m w with
    | (Return a, w') => k a w'
    | (Raise e, w') => (Raise e, w')
    end.

Definition raise {A} (e : Exn) : M A := fun w => (Raise e, w).

Definition lift {A} (o : Outcome A) : M A := fun w => (o, w).

(** [try: body  except Exception: handler]: an exception that is not
    an [Exception] passes through. *)
Definition try_except {A} (body : M A) (handler : Exn -> M A) : M A :=
  fun w =>
    match body w with
    | (Return a, w') => (Return a, w')
    | (Raise e, w') => if is_Exception e then handler e w' else (Raise e, w')
    end.

Declare Scope py_scope.
Delimit Scope py_scope with py.
Notation "x <- m ;; k" := (bind m (fun x => k))
  (at level 100, m at next level, right associativity) : py_scope.
Notation "m ;;; k" := (bind m (fun _ => k))
  (at level 100, right associativity) : py_scope.
Open Scope py_scope.

Definition DateUtil_now : M timestamp :=
  fun w =>
    (Return (clock w (now_calls w)),
     mkWorld (clock w) (S (now_calls w)) (BASE_ID w) (records w) (storage w)).

Definition log (name : string) (lvl : Level) (msg : list Piece) : M unit :=
  fun w =>
    (Return tt,
     mkWorld (clock w) (now_calls w) (BASE_ID w)
             (records w ++ [mkLog name lvl msg]) (storage w)).

Definition get_BASE_ID : M Z := fun w => (Return (BASE_ID w), w).

Definition set_BASE_ID (z : Z) : M unit :=
  fun w => (Return tt, mkWorld (clock w) (now_calls w) z (records w) (storage w)).

Definition get_storage : M (dict CacheItem) := fun w => (Return (storage w), w).

Definition set_storage (d : dict CacheItem) : M unit :=
  fun w => (Return tt, mkWorld (clock w) (now_calls w) (BASE_ID w) (records w) d).

(** Binding the keyword arguments of a call to the parameters of the
    method called: a keyword that names no parameter is a [TypeError],
    and so is a parameter left without argument. *)
Definition bind_keywords {A} (params : list string) (kwargs : list (string * A))
  : Outcome (list (string * A)) :=
  if forallb (fun kw => existsb (String.eqb (fst kw)) params) kwargs
  then if forallb (fun p => existsb (fun kw => String.eqb p (fst kw)) kwargs) params
       then Return kwargs
       else Raise (TypeError "missing required argument")
  else Raise (TypeError "got an unexpected keyword argument").

(** ** class CacheItem *)

(** [CacheItem(id=..., time_to_live=..., value=...)] *)
Definition CacheItem_init (id time_to_live : Z) (value : PyVal) : M CacheItem :=
  created_at <- DateUtil_now ;;
  ret (mkCacheItem created_at
                   (DateUtil_increment time_to_live created_at)
                   id time_to_live value).

(** The setter of the property [expires_at].  The warning goes through
    [self._logger], an attribute the instance has to have. *)
Definition CacheItem_set_expires_at (self : CacheItem) (value : timestamp)
  : M CacheItem :=
  if _expires_at self <? value then
    (if CacheItem_hasattr "_logger"
     then log "CacheItem" WARNING
              [Lit "Expires at time cannot be set to a past time. Aborting."]
     else raise (AttributeError "CacheItem" "_logger")) ;;;
    ret self
  else
    ret (with_expires_at self value).

(** [CacheItem.__contains__]: the test of [hasattr] stands before the
    [try], the membership test inside it. *)
Definition CacheItem_contains (self : CacheItem) (key : PyVal) : M bool :=
  let value := _value self in
  supported <- lift (py_hasattr_contains value) ;;
  if negb supported then ret false
  else try_except (lift (py_in key value)) (fun _ => ret false).


Definition CacheItem_get (self : CacheItem) : M PyVal := ret (_value self).

Definition CacheItem_is_expired (self : CacheItem) : M bool :=
  now <- DateUtil_now ;;
  ret (now >? _expires_at self).

(** Truth value of an [Optional[CacheItem]]: [CacheItem] defines neither
    [__bool__] nor [__len__], so every instance is true; [None] is false. *)
Definition truthy (o : option CacheItem) : bool :=
  match o with
  | Some _ => true
  | None => false
  end.

(** ** class CacheItemFactory *)

Definition initial_BASE_ID : Z := 10000.

Definition CacheItemFactory_create (value : PyVal) (time_to_live : Z)
  : M CacheItem :=
  id <- get_BASE_ID ;;
  cache_item <- CacheItem_init id time_to_live value ;;
  base <- get_BASE_ID ;;
  set_BASE_ID (base + 1) ;;;
  ret cache_item.

(** ** class CacheItemBuilder *)

(** The dictionary [_configuration], with the two keys the builder
    writes. *)
Record CacheItemBuilder : Type := mkBuilder {
  cfg_value : option PyVal;
  cfg_time_to_live : option Z
}.

Definition CacheItemBuilder_init : M CacheItemBuilder :=
  ret (mkBuilder None None).

(** [def with_time_to_live(self, value: int)] *)
Definition with_time_to_live_params : list string := ["value"].

(** [def with_value(self, value: Any)] *)
Definition with_value_params : list string := ["value"].

Definition CacheItemBuilder_with_time_to_live
  (self : CacheItemBuilder) (kwargs : list (string * Z)) : M CacheItemBuilder :=
  args <- lift (bind_keywords with_time_to_live_params kwargs) ;;
  match args with
  | (_, value) :: _ => ret (mkBuilder (cfg_value self) (Some value))
  | [] => raise (TypeError "missing required argument")
  end.

Definition CacheItemBuilder_with_value
  (self : CacheItemBuilder) (kwargs : list (string * PyVal)) : M CacheItemBuilder :=
  args <- lift (bind_keywords with_value_params kwargs) ;;
  match args with
  | (_, value) :: _ => ret (mkBuilder (Some value) (cfg_time_to_live self))
  | [] => raise (TypeError "missing required argument")
  end.

Definition CacheItemBuilder_build (self : CacheItemBuilder) : M CacheItem :=
  match cfg_value self with
  | None => raise (KeyError "value")
  | Some value =>
      match cfg_time_to_live self with
      | None => raise (KeyError "time_to_live")
      | Some time_to_live => CacheItemFactory_create value time_to_live
      end
  end.

(** ** class Cache

    Every method body that runs under [with self._lock] is run here as
    one step: the embedding is of one thread of control, and the lock
    guards nothing else. *)

(** [key in self._storage] on the dictionary. *)
Definition storage_contains (key : PyVal) : M bool :=
  k <- lift (int_key key) ;;
  d <- get_storage ;;
  match k with
  | Some z => ret (truthy (dict_get z d))
  | None => ret false
  end.

(** [self._storage[key]] *)
Definition storage_getitem (key : PyVal) : M CacheItem :=
  k <- lift (int_key key) ;;
  d <- get_storage ;;
  match k with
  | Some z =>
      match dict_get z d with
      | Some cache_item => ret cache_item
      | None => raise (KeyError "key")
      end
  | None => raise (KeyError "key")
  end.

(** [self._storage.pop(key, None)] *)
Definition storage_pop (key : Z) : M (option CacheItem) :=
  d <- get_storage ;;
  set_storage (dict_remove key d) ;;;
  ret (dict_get key d).

(** [Cache.__contains__]: the [and] evaluates its right operand only when
    the left one is true. *)
Definition Cache_contains (key : PyVal) : M bool :=
  present <- storage_contains key ;;
  if present then
    cache_item <- storage_getitem key ;;
    expired <- CacheItem_is_expired cache_item ;;
    ret (negb expired)
  else ret false.

Definition Cache_add (value : PyVal) (time_to_live : Z) : M Z :=
  builder <- CacheItemBuilder_init ;;
  builder <- CacheItemBuilder_with_value builder [("value", value)] ;;
  builder <- CacheItemBuilder_with_time_to_live builder
               [("time_to_live", time_to_live)] ;;
  cache_item <- CacheItemBuilder_build builder ;;
  d <- get_storage ;;
  set_storage (dict_setitem (_id cache_item) cache_item d) ;;;
  log "Cache" INFO
      [Lit "Cache item added with ID "; Fmt (PInt (_id cache_item));
       Lit " and time to live "; Fmt (PInt (_time_to_live cache_item));
       Lit " seconds"] ;;;
  ret (_id cache_item).

Definition Cache_clear : M unit :=
  set_storage [] ;;;
  log "Cache" INFO [Lit "Cache cleared"].

Definition Cache_get (key : Z) : M (option CacheItem) :=
  d <- get_storage ;;
  ret (dict_get key d).

(** The generator expression of [get_by_key], stopped by [next] at its
    first element: entries are tried in the order of [values()], and the
    membership test is evaluated only on an entry that is not expired. *)
Fixpoint first_live_with (key : PyVal) (items : list CacheItem)
  : M (option CacheItem) :=
  match items with
  | [] => ret None
  | cache_item :: rest =>
      expired <- CacheItem_is_expired cache_item ;;
      if negb expired then
        found <- CacheItem_contains cache_item key ;;
        if found then ret (Some cache_item) else first_live_with key rest
      else first_live_with key rest
  end.

Definition Cache_get_by_key (key : PyVal) : M (option CacheItem) :=
  d <- get_storage ;;
  first_live_with key (dict_values d).

Definition Cache_invalidate (key : Z) : M unit :=
  cache_item <- storage_pop key ;;
  if negb (truthy cache_item) then
    log "Cache" WARNING
        [Lit "Cache item with ID "; Fmt (PInt key);
         Lit " does not exist. Aborting invalidation."]
  else
    log "Cache" INFO [Lit "Cache item invalidated with ID "; Fmt (PInt key)].

(** The list comprehension of [invalidate_expired]: the ids of the
    entries that report themselves expired, in the order of [values()]. *)
Fixpoint expired_ids_of (items : list CacheItem) : M (list Z) :=
  match items with
  | [] => ret []
  | cache_item :: rest =>
      expired <- CacheItem_is_expired cache_item ;;
      ids <- expired_ids_of rest ;;
      ret (if expired then _id cache_item :: ids else ids)
  end.

(** [for x in xs: body(x)] *)
Fixpoint for_each {A} (xs : list A) (body : A -> M unit) : M unit :=
  match xs with
  | [] => ret tt
  | x :: xs' => body x ;;; for_each xs' body
  end.

Definition Cache_invalidate_expired : M unit :=
  d <- get_storage ;;
  expired_ids <- expired_ids_of (dict_values d) ;;
  if (Z.of_nat (length expired_ids) =? 0) then
    log "Cache" WARNING
        [Lit "No expired cache items found. Aborting invalidation."]
  else
    for_each expired_ids Cache_invalidate ;;;
    log "Cache" INFO [Lit "Expired cache items invalidated"].

Definition Cache_remove (key : Z) : M unit :=
  cache_item <- storage_pop key ;;
  if negb (truthy cache_item) then
    log "Cache" WARNING
        [Lit "Cache item with ID "; Fmt (PInt key);
         Lit " does not exist. Aborting removal."]
  else
    log "Cache" INFO [Lit "Cache item removed with ID "; Fmt (PInt key)].

Definition Cache_set (value : CacheItem) : M unit :=
  d <- get_storage ;;
  set_storage (dict_setitem (_id value) value d) ;;;
  log "Cache" INFO [Lit "Cache item set with ID "; Fmt (PInt (_id value))].

Definition Cache_size : M Z :=
  d <- get_storage ;;
  ret (dict_len d).

(** ** class CacheService: the operations on the owned cache *)

Definition CacheService_add (value : PyVal) (time_to_live : Z) : M Z :=
  Cache_add value time_to_live.

(** [get] returns the stored value itself, or [None]. *)
Definition CacheService_get (key : Z) : M PyVal :=
  cacheitem <- Cache_get key ;;
  match cacheitem with
  | None =>
      log "CacheService" WARNING
          [Lit "Cache item with ID "; Fmt (PInt key);
           Lit " does not exist. Aborting retrieval."] ;;;
      ret PNone
  | Some item => ret (_value item)
  end.

(** [key not in self._storage] is [Cache.__contains__] negated: the guard
    asks whether [key] is the id of a live entry. *)
Definition CacheService_get_by_key (key : PyVal) : M (option CacheItem) :=
  present <- Cache_contains key ;;
  if negb present then
    log "CacheService" WARNING
        [Lit "Cache item with key "; Fmt key;
         Lit " does not exist. Aborting retrieval."] ;;;
    ret None
  else Cache_get_by_key key.

Definition CacheService_remove (key : Z) : M unit := Cache_remove key.

Definition CacheService_size : M Z := Cache_size.

(** ** class CacheService: the background thread

    The service owns, besides the cache, [_last_operation_at],
    [_time_to_live], the [Event] [_stop_event] and the thread that runs
    [_periodic_cleanup].  The thread is a state machine whose control
    points are the statements of the loop; the caller's
    [self._stop_event.set()] may come between any two of them. *)

Inductive Pc : Type :=
| AtWhile      (* about to evaluate [while not self._stop_event.is_set()] *)
| AtSleep      (* about to run [time.sleep(float(self._time_to_live))] *)
| AtCleanup    (* about to run [self._storage.invalidate_expired()] *)
| AtUpdate     (* about to run [self._last_operation_at = DateUtil.now()] *)
| Done.        (* [_periodic_cleanup] has returned *)

Inductive Event : Type :=
| Slept (seconds : Z)
| Swept
| Updated (now : timestamp)
| Exited
| Died (e : Exn).

Record Service : Type := mkService {
  sleep_limit : nat -> Z;         (* the longest sleep, in seconds, the platform
                                     accepts once the thread has left n events *)
  world : World;
  _last_operation_at : timestamp;
  service_time_to_live : Z;
  _stop_event : bool;
  pc : Pc;
  trace : list Event              (* what the thread has done, oldest first *)
}.

(** [CacheService(time_to_live)]: a fresh, empty cache and a started
    thread; [limit] is what the platform will accept as sleeps. *)
Definition CacheService_init
  (time_to_live : Z) (limit : nat -> Z) (w : World) : Service :=
  match (now <- DateUtil_now ;;
         set_storage [] ;;;
         log "CacheService" INFO
             [Lit "CacheService started with cleanup interval ";
              Fmt (PInt time_to_live); Lit " seconds"] ;;;
         ret now) w with
  | (Return now, w') => mkService limit w' now time_to_live false AtWhile []
  | (Raise _, w') => mkService limit w' 0 time_to_live false Done []
  end.

(** The setter of the property [last_operation_at]. *)
Definition CacheService_set_last_operation_at (s : Service) (value : timestamp)
  : Service :=
  if _last_operation_at s >? value then
    match log "CacheService" WARNING
              [Lit "Last operation at time cannot be set to a past time. Aborting."]
              (world s) with
    | (_, w') =>
        mkService (sleep_limit s) w' (_last_operation_at s) (service_time_to_live s)
                  (_stop_event s) (pc s) (trace s)
    end
  else
    mkService (sleep_limit s) (world s) value (service_time_to_live s)
              (_stop_event s) (pc s) (trace s).

Definition cleanup_body : M unit :=
  log "CacheService" DEBUG [Lit "Running periodic cache cleanup"] ;;;
  Cache_invalidate_expired ;;;
  log "CacheService" DEBUG [Lit "Periodic cache cleanup completed"].

(** [float(n)] of an [int]: from [2^1024 - 2^970] on in magnitude the
    integer rounds past the largest float and the conversion raises.  The
    float is written as the integer it was made from; that is exact below
    [2^53], and beyond it [time.sleep] refuses the float whatever it was
    rounded to. *)
Definition py_float (n : Z) : Outcome Z :=
  if 2 ^ 1024 - 2 ^ 970 <=? Z.abs n
  then Raise (OverflowError "int too large to convert to float")
  else Return n.

(** The most seconds whose count of nanoseconds fits the 64 bits of
    CPython's timestamps. *)
Definition longest_timestamp : Z := 9223372036.

(** [time.sleep(secs)] of CPython on a whole number of seconds.  The
    length is first turned into a timestamp, which fails beyond
    [longest_timestamp] on either side of zero; a negative length is
    refused next; the operating system at last refuses a sleep longer
    than it can wait for, [limit], a bound that depends on the platform
    and on the moment (on Linux, on how far the monotonic clock is from
    [longest_timestamp]). *)
Definition time_sleep (limit secs : Z) : Outcome unit :=
  if longest_timestamp <? Z.abs secs
  then Raise (OverflowError "timestamp too large to convert to C _PyTime_t")
  else if secs <? 0
  then Raise (ValueError "sleep length must be non-negative")
  else if limit <? secs
  then Raise (OSError "Invalid argument")
  else Return tt.

(** [time.sleep(float(self._time_to_live))] *)
Definition sleep_outcome (s : Service) : Outcome unit :=
  match py_float (service_time_to_live s) with
  | Return secs => time_sleep (sleep_limit s (length (trace s))) secs
  | Raise e => Raise e
  end.

(** One statement of [_periodic_cleanup].  An exception that leaves the
    loop ends the thread. *)
Definition thread_step (s : Service) : Service :=
  match pc s with
  | AtWhile =>
      if _stop_event s
      then mkService (sleep_limit s) (world s) (_last_operation_at s) (service_time_to_live s)
                     (_stop_event s) Done (trace s ++ [Exited])
      else mkService (sleep_limit s) (world s) (_last_operation_at s) (service_time_to_live s)
                     (_stop_event s) AtSleep (trace s)
  | AtSleep =>
      match sleep_outcome s with
      | Return _ =>
          mkService (sleep_limit s) (world s) (_last_operation_at s)
                    (service_time_to_live s) (_stop_event s) AtCleanup
                    (trace s ++ [Slept (service_time_to_live s)])
      | Raise e =>
          mkService (sleep_limit s) (world s) (_last_operation_at s)
                    (service_time_to_live s) (_stop_event s) Done
                    (trace s ++ [Died e])
      end
  | AtCleanup =>
      match cleanup_body (world s) with
      | (Return _, w') =>
          mkService (sleep_limit s) w' (_last_operation_at s) (service_time_to_live s)
                    (_stop_event s) AtUpdate (trace s ++ [Swept])
      | (Raise e, w') =>
          mkService (sleep_limit s) w' (_last_operation_at s) (service_time_to_live s)
                    (_stop_event s) Done (trace s ++ [Died e])
      end
  | AtUpdate =>
      match DateUtil_now (world s) with
      | (Return now, w') =>
          mkService (sleep_limit s) w' now (service_time_to_live s)
                    (_stop_event s) AtWhile (trace s ++ [Updated now])
      | (Raise e, w') =>
          mkService (sleep_limit s) w' (_last_operation_at s) (service_time_to_live s)
                    (_stop_event s) Done (trace s ++ [Died e])
      end
  | Done => s
  end.

(** The first half of [shutdown]: the log line and
    [self._stop_event.set()]. *)
Definition shutdown_set (s : Service) : Service :=
  match log "CacheService" INFO [Lit "CacheService shutdown initiated"]
            (world s) with
  | (_, w') =>
      mkService (sleep_limit s) w' (_last_operation_at s) (service_time_to_live s)
                true (pc s) (trace s)
  end.

(** [self._thread.join()]: the caller waits while the thread runs on. *)
Fixpoint join (fuel : nat) (s : Service) : option Service :=
  match pc s with
  | Done => Some s
  | _ =>
      match fuel with
      | O => None
      | S fuel' => join fuel' (thread_step s)
      end
  end.

Definition CacheService_shutdown (fuel : nat) (s : Service) : option Service :=
  match join fuel (shutdown_set s) with
  | Some s' =>
      match log "CacheService" INFO [Lit "CacheService shutdown complete"]
                (world s') with
      | (_, w') =>
          Some (mkService (sleep_limit s') w' (_last_operation_at s')
                          (service_time_to_live s')
                          (_stop_event s') (pc s') (trace s'))
      end
  | None => None
  end.

(** An interleaving of the thread with its owner. *)
Inductive Action : Type :=
| ThreadStep
| SetStop.

Definition act (a : Action) (s : Service) : Service :=
  match a with
  | ThreadStep => thread_step s
  | SetStop => shutdown_set s
  end.

Definition run (schedule : list Action) (s : Service) : Service :=
  fold_left (fun s a => act a s) schedule s.

(** The loop as the specification words it: sleep, then test the stop
    signal, then sweep, then update.  Control points carry the same names;
    the test sits between [AtSleep] and [AtCleanup]. *)
Definition spec_thread_step (s : Service) : Service :=
  match pc s with
  | AtSleep =>
      match sleep_outcome s with
      | Return _ =>
          mkService (sleep_limit s) (world s) (_last_operation_at s)
                    (service_time_to_live s) (_stop_event s) AtWhile
                    (trace s ++ [Slept (service_time_to_live s)])
      | Raise e =>
          mkService (sleep_limit s) (world s) (_last_operation_at s)
                    (service_time_to_live s) (_stop_event s) Done
                    (trace s ++ [Died e])
      end
  | AtWhile =>
      if _stop_event s
      then mkService (sleep_limit s) (world s) (_last_operation_at s) (service_time_to_live s)
                     (_stop_event s) Done (trace s ++ [Exited])
      else mkService (sleep_limit s) (world s) (_last_operation_at s) (service_time_to_live s)
                     (_stop_event s) AtCleanup (trace s)
  | AtCleanup =>
      match cleanup_body (world s) with
      | (Return _, w') =>
          mkService (sleep_limit s) w' (_last_operation_at s) (service_time_to_live s)
                    (_stop_event s) AtUpdate (trace s ++ [Swept])
      | (Raise e, w') =>
          mkService (sleep_limit s) w' (_last_operation_at s) (service_time_to_live s)
                    (_stop_event s) Done (trace s ++ [Died e])
      end
  | AtUpdate =>
      match DateUtil_now (world s) with
      | (Return now, w') =>
          mkService (sleep_limit s) w' now (service_time_to_live s)
                    (_stop_event s) AtSleep (trace s ++ [Updated now])
      | (Raise e, w') =>
          mkService (sleep_limit s) w' (_last_operation_at s) (service_time_to_live s)
                    (_stop_event s) Done (trace s ++ [Died e])
      end
  | Done => s
  end.

(** ** Worlds and values used in the examples *)

(** A process that has just imported the module: no reading of the clock
    yet, the counter at its base, nothing logged, an empty cache. *)
Definition fresh_world (clk : nat -> timestamp) : World :=
  mkWorld clk 0 initial_BASE_ID [] [].

(** A clock that stands still. *)
Definition frozen (t : timestamp) : nat -> timestamp := fun _ => t.

(** A clock that advances by one second at every reading. *)
Definition ticking : nat -> timestamp := fun n => Z.of_nat n * 1000000.

(** The dictionary [{"a": 1}]. *)
Definition dict_a1 : PyVal := PDict [(PStr "a", PInt 1)].

(** ** Vocabulary of the statements *)

(** The world after [recs] have been logged. *)
Definition logged (recs : list LogRecord) (w : World) : World :=
  mkWorld (clock w) (now_calls w) (BASE_ID w) (records w ++ recs) (storage w).

(** The world after [n] more readings of the clock. *)
Definition after_readings (n : nat) (w : World) : World :=
  mkWorld (clock w) (n + now_calls w) (BASE_ID w) (records w) (storage w).

(** The world with another storage. *)
Definition with_storage (d : dict CacheItem) (w : World) : World :=
  mkWorld (clock w) (now_calls w) (BASE_ID w) (records w) d.

(** A computation that leaves the storage dictionary as it found it,
    whatever it returns or raises. *)
Definition keeps_storage {A} (m : M A) : Prop :=
  forall w, storage (snd (m w)) = storage w.

(** The storage of a cache filled through its own methods: a dictionary
    has each key once, and [add] and [set] file an entry under its id. *)
Definition storage_wf (d : dict CacheItem) : Prop :=
  NoDup (dict_keys d) /\ Forall (fun kv => _id (snd kv) = fst kv) d.

(** What the scan of [invalidate_expired] sees: entry number [i] of
    [values()] is asked [is_expired()] at the [i]-th reading of the clock
    after the [n] readings made before. *)
Fixpoint scan_flags (clk : nat -> timestamp) (n : nat) (items : list CacheItem)
  : list bool :=
  match items with
  | [] => []
  | cache_item :: rest =>
      (clk n >? _expires_at cache_item) :: scan_flags clk (S n) rest
  end.

(** The entries of [d] whose flag is [false], in their order. *)
Fixpoint survivors (d : dict CacheItem) (flags : list bool) : dict CacheItem :=
  match d, flags with
  | kv :: d', expired :: flags' =>
      if expired then survivors d' flags' else kv :: survivors d' flags'
  | _, _ => []
  end.

(** The ids of the entries of [d] whose flag is [true], in their order. *)
Fixpoint flagged_ids (items : list CacheItem) (flags : list bool) : list Z :=
  match items, flags with
  | cache_item :: items', expired :: flags' =>
      if expired then _id cache_item :: flagged_ids items' flags'
      else flagged_ids items' flags'
  | _, _ => []
  end.

(** One log line per id popped by [invalidate]. *)
Definition invalidated_lines (ids : list Z) : list LogRecord :=
  map (fun key => mkLog "Cache" INFO
                        [Lit "Cache item invalidated with ID "; Fmt (PInt key)])
      ids.

(** How many sweeps a trace of the thread shows. *)
Fixpoint sweeps (t : list Event) : nat :=
  match t with
  | [] => O
  | Swept :: t' => S (sweeps t')
  | _ :: t' => sweeps t'
  end.

(** The last sentence of the description of the loop: once the stop
    signal is set while the thread sleeps, the thread performs no further
    sweep, however long it runs. *)
Definition stop_during_sleep_prevents_sweep (step : Service -> Service) : Prop :=
  forall s n,
    pc s = AtSleep -> _stop_event s = true ->
    sweeps (trace (Nat.iter n step s)) = sweeps (trace s).

(** The entry [CacheItem(id, time_to_live, value)] made when the clock
    reads [now]. *)
Definition item_made_at (now : timestamp) (id time_to_live : Z) (value : PyVal)
  : CacheItem :=
  mkCacheItem now (DateUtil_increment time_to_live now) id time_to_live value.

(** A cache that holds [{"a": 1}] under id 10000, filed by [set]; the
    clock stands at 0 and the entry lives for 300 seconds. *)
Definition world_with_a1 : World :=
  snd ((cache_item <- CacheItemFactory_create dict_a1 300 ;;
        Cache_set cache_item) (fresh_world (frozen 0))).

(** The entry that cache holds. *)
Definition item_a1 : CacheItem := item_made_at 0 10000 300 dict_a1.

(** A caller's [ids = [cache.add(v, ttl) for v in values]]. *)
Fixpoint add_all (values : list PyVal) (time_to_live : Z) : M (list Z) :=
  match values with
  | [] => ret []
  | v :: rest =>
      id <- CacheService_add v time_to_live ;;
      ids <- add_all rest time_to_live ;;
      ret (id :: ids)
  end.

(** A caller's [for v in values: cache.set(CacheItemFactory.create(v, ttl))],
    the ids collected. *)
Fixpoint create_and_set_all (values : list PyVal) (time_to_live : Z)
  : M (list Z) :=
  match values with
  | [] => ret []
  | v :: rest =>
      cache_item <- CacheItemFactory_create v time_to_live ;;
      Cache_set cache_item ;;;
      ids <- create_and_set_all rest time_to_live ;;
      ret (_id cache_item :: ids)
  end.

(** The string ["hello"] as an entry made at time 0 for 300 seconds. *)
Definition item_hello : CacheItem := item_made_at 0 10000 300 (PStr "hello").

(** What is left of [d] once the keys [ids] have been popped in turn. *)
Definition remove_all {V} (ids : list Z) (d : dict V) : dict V :=
  fold_left (fun d k => dict_remove k d) ids d.

(** A cache with two entries, the first made at time 0 and the second at
    time 200 seconds, each for 300 seconds, read at time 301 seconds:
    the first has expired, the second has not. *)
Definition world_two_entries : World :=
  mkWorld (frozen 301000000) 2 10002 []
          [(10000, item_a1);
           (10001, item_made_at 200000000 10001 300 (PStr "hello"))].

(** The ids [b, b+1, ..., b+n-1]. *)
Fixpoint ids_from (b : Z) (n : nat) : list Z :=
  match n with
  | O => []
  | S n' => b :: ids_from (b + 1) n'
  end.

(** A service over the cache of [world_two_entries] whose thread is about
    to test the stop signal, with a sweep interval of 300 seconds. *)
Definition service_two_entries : Service :=
  mkService (fun _ => 9000000000) world_two_entries 0 300 false AtWhile [].

(** What [key in cache_item] does: [CacheItem.__contains__] depends on
    the stored value only, so any world serves to run it. *)
Definition contains_outcome (key : PyVal) (cache_item : CacheItem)
  : Outcome bool :=
  fst (CacheItem_contains cache_item key (fresh_world (frozen 0))).


(** Whether an entry answers [False] to [is_expired()] when the clock
    reads [t]. *)
Definition live_at (t : timestamp) (cache_item : CacheItem) : bool :=
  negb (t >? _expires_at cache_item).


(** The entries [CacheItemFactory.create] makes for [values] in turn,
    starting with id [b] at the [n]-th reading of the clock. *)
Fixpoint items_made (clk : nat -> timestamp) (n : nat) (b : Z)
  (values : list PyVal) (time_to_live : Z) : list CacheItem :=
  match values with
  | [] => []
  | v :: rest =>
      item_made_at (clk n) b time_to_live v
      :: items_made clk (S n) (b + 1) rest time_to_live
  end.

(** A caller's chain
    [CacheItemBuilder().with_value(value=v).with_time_to_live(value=t).build()]. *)
Definition build_with (v : PyVal) (t : Z) : M CacheItem :=
  builder <- CacheItemBuilder_init ;;
  builder <- CacheItemBuilder_with_value builder [("value", v)] ;;
  builder <- CacheItemBuilder_with_time_to_live builder [("value", t)] ;;
  CacheItemBuilder_build builder.

(** An instance of a class whose [__getattr__] raises [RuntimeError]. *)
Definition broken_probe : PyVal :=
  PCustom 0 (Broken (RuntimeError "boom")) [] None.



(** * Facts *)

(** ** The monad *)

Lemma bind_ret_l {A B} (a : A) (k : A -> M B) w : bind (ret a) k w = k a w.
Proof. reflexivity. Qed.

Lemma bind_return {A B} (m : M A) (k : A -> M B) w a w' :
  m w = (Return a, w') -> bind m k w = k a w'.
Proof. unfold bind. intros ->. reflexivity. Qed.

Lemma bind_raise {A B} (m : M A) (k : A -> M B) w e w' :
  m w = (Raise e, w') -> bind m k w = (Raise e, w').
Proof. unfold bind. intros ->. reflexivity. Qed.

Lemma bind_cases {A B} (m : M A) (k : A -> M B) w o w' :
  m w = (o, w') ->
  bind m k w = match o with
               | Return a => k a w'
               | Raise e => (Raise e, w')
               end.
Proof. unfold bind. intros ->. reflexivity. Qed.

Lemma logged_nil w : logged [] w = w.
Proof. destruct w. unfold logged. cbn. now rewrite app_nil_r. Qed.

Lemma logged_logged r1 r2 w : logged r2 (logged r1 w) = logged (r1 ++ r2) w.
Proof. unfold logged. cbn. now rewrite app_assoc. Qed.

Lemma log_run name lvl msg w :
  log name lvl msg w = (Return tt, logged [mkLog name lvl msg] w).
Proof. reflexivity. Qed.

(** ** Frame: what leaves the storage alone *)

Lemma keeps_ret {A} (a : A) : keeps_storage (ret a).
Proof. intro w. reflexivity. Qed.

Lemma keeps_raise {A} e : keeps_storage (@raise A e).
Proof. intro w. reflexivity. Qed.

Lemma keeps_lift {A} (o : Outcome A) : keeps_storage (lift o).
Proof. intro w. reflexivity. Qed.

Lemma keeps_now : keeps_storage DateUtil_now.
Proof. intro w. reflexivity. Qed.

Lemma keeps_log name lvl msg : keeps_storage (log name lvl msg).
Proof. intro w. reflexivity. Qed.

Lemma keeps_get_storage : keeps_storage get_storage.
Proof. intro w. reflexivity. Qed.

Lemma keeps_bind {A B} (m : M A) (k : A -> M B) :
  keeps_storage m -> (forall a, keeps_storage (k a)) -> keeps_storage (bind m k).
Proof.
  intros Hm Hk w. unfold bind. specialize (Hm w).
  destruct (m w) as [[a | e] w']; cbn in *.
  - now rewrite Hk.
  - assumption.
Qed.

Lemma keeps_try {A} (body : M A) handler :
  keeps_storage body -> (forall e, keeps_storage (handler e)) ->
  keeps_storage (try_except body handler).
Proof.
  intros Hb Hh w. unfold try_except. specialize (Hb w).
  destruct (body w) as [[a | e] w']; cbn in *.
  - assumption.
  - destruct (is_Exception e); cbn; [now rewrite Hh | assumption].
Qed.

Create HintDb frame.
#[export] Hint Resolve keeps_ret keeps_raise keeps_lift keeps_now keeps_log
  keeps_get_storage : frame.
#[export] Hint Extern 2 (keeps_storage (bind _ _)) =>
  apply keeps_bind; [ | intro ] : frame.
#[export] Hint Extern 2 (keeps_storage (try_except _ _)) =>
  apply keeps_try; [ | intro ] : frame.
#[export] Hint Extern 3 (keeps_storage (if ?b then _ else _)) =>
  destruct b : frame.
#[export] Hint Extern 3 (keeps_storage (match ?o with Some _ => _ | None => _ end)) =>
  destruct o : frame.

Lemma keeps_is_expired item : keeps_storage (CacheItem_is_expired item).
Proof. unfold CacheItem_is_expired. auto with frame. Qed.

Lemma keeps_item_contains item key : keeps_storage (CacheItem_contains item key).
Proof. unfold CacheItem_contains. auto with frame. Qed.

#[export] Hint Resolve keeps_is_expired keeps_item_contains : frame.

Lemma keeps_first_live_with key items :
  keeps_storage (first_live_with key items).
Proof.
  induction items as [| item rest IH]; cbn [first_live_with].
  - auto with frame.
  - auto 8 with frame.
Qed.

Lemma keeps_storage_contains key : keeps_storage (storage_contains key).
Proof. unfold storage_contains. auto 8 with frame. Qed.

Lemma keeps_storage_getitem key : keeps_storage (storage_getitem key).
Proof. unfold storage_getitem. auto 8 with frame. Qed.

#[export] Hint Resolve keeps_first_live_with keeps_storage_contains
  keeps_storage_getitem : frame.

Lemma keeps_Cache_get key : keeps_storage (Cache_get key).
Proof. unfold Cache_get. auto with frame. Qed.

Lemma keeps_Cache_size : keeps_storage Cache_size.
Proof. unfold Cache_size. auto with frame. Qed.

Lemma keeps_Cache_contains key : keeps_storage (Cache_contains key).
Proof. unfold Cache_contains. auto 8 with frame. Qed.

Lemma keeps_Cache_get_by_key key : keeps_storage (Cache_get_by_key key).
Proof. unfold Cache_get_by_key. auto with frame. Qed.

#[export] Hint Resolve keeps_Cache_get keeps_Cache_size keeps_Cache_contains
  keeps_Cache_get_by_key : frame.

Lemma keeps_CacheService_get key : keeps_storage (CacheService_get key).
Proof. unfold CacheService_get. auto 8 with frame. Qed.

Lemma keeps_CacheService_get_by_key key :
  keeps_storage (CacheService_get_by_key key).
Proof. unfold CacheService_get_by_key. auto 8 with frame. Qed.

(** ** CacheItem *)

Lemma set_expires_at_not_later self value w :
  value <= _expires_at self ->
  CacheItem_set_expires_at self value w = (Return (with_expires_at self value), w).
Proof.
  intro H. unfold CacheItem_set_expires_at.
  destruct (Z.ltb_spec (_expires_at self) value); [lia | reflexivity].
Qed.

Lemma set_expires_at_later self value w :
  _expires_at self < value ->
  CacheItem_set_expires_at self value w
  = (Raise (AttributeError "CacheItem" "_logger"), w).
Proof.
  intro H. unfold CacheItem_set_expires_at.
  destruct (Z.ltb_spec (_expires_at self) value); [reflexivity | lia].
Qed.

(** The sibling setter, [CacheService.last_operation_at], refuses exactly
    the values that lie before the current one and logs through a logger
    the service does have. *)
Lemma set_last_operation_at_earlier s value :
  value < _last_operation_at s ->
  _last_operation_at (CacheService_set_last_operation_at s value)
  = _last_operation_at s /\
  records (world (CacheService_set_last_operation_at s value))
  = records (world s)
    ++ [mkLog "CacheService" WARNING
          [Lit "Last operation at time cannot be set to a past time. Aborting."]].
Proof.
  intro H. unfold CacheService_set_last_operation_at.
  destruct (Z.gtb_spec (_last_operation_at s) value); [| lia].
  cbn. split; reflexivity.
Qed.

Lemma set_last_operation_at_not_earlier s value :
  _last_operation_at s <= value ->
  _last_operation_at (CacheService_set_last_operation_at s value) = value.
Proof.
  intro H. unfold CacheService_set_last_operation_at.
  destruct (Z.gtb_spec (_last_operation_at s) value); [lia | reflexivity].
Qed.

(** C2, on the code: the entry made at time 0 with 300 seconds to live
    expires at 300000000.  The setter of [expires_at] commits the earlier
    value 100 and the value -1, which lies before [created_at]; the later
    value 400000000 is not committed. *)
Theorem expires_at_setter_commits_earlier_values :
  CacheItem_init 10000 300 (PStr "hello") (fresh_world (frozen 0))
  = (Return item_hello, after_readings 1 (fresh_world (frozen 0))) /\
  _expires_at item_hello = 300000000 /\
  (forall w, CacheItem_set_expires_at item_hello 100 w
             = (Return (with_expires_at item_hello 100), w)) /\
  (forall w, CacheItem_set_expires_at item_hello (-1) w
             = (Return (with_expires_at item_hello (-1)), w)) /\
  _expires_at (with_expires_at item_hello (-1)) < _created_at item_hello /\
  (forall w, fst (CacheItem_set_expires_at item_hello 400000000 w)
             <> Return (with_expires_at item_hello 400000000)).
Proof.
  split; [reflexivity |].
  split; [reflexivity |].
  split; [intro w; apply set_expires_at_not_later; cbn; lia |].
  split; [intro w; apply set_expires_at_not_later; cbn; lia |].
  split; [cbn; lia |].
  intro w. rewrite set_expires_at_later by (cbn; lia). cbn. discriminate.
Qed.

(** C3, on the code: on the branch that refuses the assignment (here
    400000000 against an expiration of 300000000) the setter raises
    [AttributeError], since [CacheItem] has no attribute [_logger];
    nothing is logged and the world is as before. *)
Theorem expires_at_setter_raises_AttributeError :
  CacheItem_hasattr "_logger" = false /\
  forall w, CacheItem_set_expires_at item_hello 400000000 w
            = (Raise (AttributeError "CacheItem" "_logger"), w).
Proof.
  split; [reflexivity |].
  intro w. apply set_expires_at_later. cbn. lia.
Qed.




(** ** Cache.add *)

Lemma Cache_add_raises value time_to_live w :
  Cache_add value time_to_live w
  = (Raise (TypeError "got an unexpected keyword argument"), w).
Proof. reflexivity. Qed.

(** The keyword [time_to_live] is not a parameter of
    [CacheItemBuilder.with_time_to_live]; [value] is. *)
Lemma with_time_to_live_keyword :
  existsb (String.eqb "time_to_live") with_time_to_live_params = false /\
  existsb (String.eqb "value") with_time_to_live_params = true.
Proof. split; reflexivity. Qed.

(** C5, on the code: [add(v, ttl)] raises [TypeError] for every value and
    every time to live, and leaves the world as it was: no id is returned
    and nothing is stored, so that [get] of the id the entry would have
    had finds nothing. *)
Theorem add_raises_TypeError (v : PyVal) (ttl : Z) (w : World) :
  CacheService_add v ttl w
  = (Raise (TypeError "got an unexpected keyword argument"), w) /\
  fst (CacheService_get (BASE_ID (fresh_world (clock w)))
         (snd (CacheService_add v ttl (fresh_world (clock w)))))
  = Return PNone.
Proof. split; reflexivity. Qed.

(** ** Dictionaries *)

Lemma dict_remove_absent {V} (k : Z) (d : dict V) :
  dict_get k d = None -> dict_remove k d = d.
Proof.
  induction d as [| [k' v] d IH]; cbn; [reflexivity |].
  destruct (k' =? k); [discriminate |].
  intro H. now rewrite IH.
Qed.

Lemma dict_get_setitem_same {V} (k : Z) (v : V) (d : dict V) :
  dict_get k (dict_setitem k v d) = Some v.
Proof.
  induction d as [| [k' v'] d IH]; cbn.
  - now rewrite Z.eqb_refl.
  - destruct (k' =? k) eqn:E; cbn.
    + now rewrite Z.eqb_refl.
    + now rewrite E.
Qed.

Lemma dict_get_in_keys {V} (k : Z) (d : dict V) :
  dict_get k d = None <-> ~ In k (dict_keys d).
Proof.
  induction d as [| [k' v] d IH]; cbn.
  - tauto.
  - destruct (Z.eqb_spec k' k).
    + split; [discriminate | intros H; exfalso; apply H; now left].
    + rewrite IH. tauto.
Qed.

Lemma dict_setitem_fresh {V} (k : Z) (v : V) (d : dict V) :
  ~ In k (dict_keys d) -> dict_setitem k v d = d ++ [(k, v)].
Proof.
  induction d as [| [k' v'] d IH]; cbn; [reflexivity |].
  intro H. destruct (Z.eqb_spec k' k); [tauto |].
  rewrite IH by tauto. reflexivity.
Qed.

(** ** CacheService.get_by_key *)

(** A string is the id of no entry: the guard of
    [CacheService.get_by_key] sends every string key to the warning. *)
Lemma CacheService_get_by_key_str (k : string) (w : World) :
  CacheService_get_by_key (PStr k) w
  = (Return None,
     logged [mkLog "CacheService" WARNING
               [Lit "Cache item with key "; Fmt (PStr k);
                Lit " does not exist. Aborting retrieval."]] w).
Proof. reflexivity. Qed.

(** C1, on the code: [add({"a": 1}, 300)] raises and stores nothing.
    With the entry filed by [set] instead, the cache's own [get_by_key]
    finds it under ["a"], but the service's [get_by_key("a")] returns
    [None], as it does for ["b"]. *)
Theorem service_get_by_key_misses_stored_key :
  CacheService_add dict_a1 300 (fresh_world (frozen 0))
  = (Raise (TypeError "got an unexpected keyword argument"),
     fresh_world (frozen 0)) /\
  storage world_with_a1 = [(10000, item_a1)] /\
  fst (CacheItem_is_expired item_a1 world_with_a1) = Return false /\
  fst (Cache_get_by_key (PStr "a") world_with_a1) = Return (Some item_a1) /\
  fst (CacheService_get_by_key (PStr "a") world_with_a1) = Return None /\
  fst (CacheService_get_by_key (PStr "b") world_with_a1) = Return None.
Proof. repeat split. Qed.

(** ** Cache.remove and Cache.invalidate *)

Lemma Cache_remove_absent key w :
  dict_get key (storage w) = None ->
  Cache_remove key w
  = (Return tt,
     logged [mkLog "Cache" WARNING
               [Lit "Cache item with ID "; Fmt (PInt key);
                Lit " does not exist. Aborting removal."]] w).
Proof.
  intro H. unfold Cache_remove, storage_pop, bind, get_storage, set_storage, ret.
  cbn. rewrite H, dict_remove_absent by assumption. reflexivity.
Qed.

Lemma Cache_invalidate_absent key w :
  dict_get key (storage w) = None ->
  Cache_invalidate key w
  = (Return tt,
     logged [mkLog "Cache" WARNING
               [Lit "Cache item with ID "; Fmt (PInt key);
                Lit " does not exist. Aborting invalidation."]] w).
Proof.
  intro H. unfold Cache_invalidate, storage_pop, bind, get_storage, set_storage, ret.
  cbn. rewrite H, dict_remove_absent by assumption. reflexivity.
Qed.

Lemma Cache_invalidate_present key item w :
  dict_get key (storage w) = Some item ->
  Cache_invalidate key w
  = (Return tt,
     logged (invalidated_lines [key])
            (with_storage (dict_remove key (storage w)) w)).
Proof.
  intro H. unfold Cache_invalidate, storage_pop, bind, get_storage, set_storage, ret.
  cbn. rewrite H. reflexivity.
Qed.

Lemma for_each_absent (body : Z -> M unit) (line : Z -> LogRecord) key n w :
  dict_get key (storage w) = None ->
  (forall w', dict_get key (storage w') = None ->
              body key w' = (Return tt, logged [line key] w')) ->
  for_each (repeat key n) body w = (Return tt, logged (repeat (line key) n) w).
Proof.
  intros H Hbody. revert w H.
  induction n as [| n IH]; intros w H; cbn [repeat for_each].
  - unfold ret. now rewrite logged_nil.
  - erewrite bind_return by (apply Hbody; exact H).
    rewrite IH by exact H. now rewrite logged_logged.
Qed.

(** C7: on an id that is not in storage, [remove] and [invalidate] return
    normally, log one warning and change nothing else: the storage and
    its size are those of before.  Called [n] times in a row on that id
    they do the same [n] times. *)
Theorem remove_invalidate_absent_noop (w : World) (key : Z) :
  dict_get key (storage w) = None ->
  let removal := mkLog "Cache" WARNING
                   [Lit "Cache item with ID "; Fmt (PInt key);
                    Lit " does not exist. Aborting removal."] in
  let invalidation := mkLog "Cache" WARNING
                        [Lit "Cache item with ID "; Fmt (PInt key);
                         Lit " does not exist. Aborting invalidation."] in
  Cache_remove key w = (Return tt, logged [removal] w) /\
  CacheService_remove key w = (Return tt, logged [removal] w) /\
  Cache_invalidate key w = (Return tt, logged [invalidation] w) /\
  (forall n, for_each (repeat key n) Cache_remove w
             = (Return tt, logged (repeat removal n) w)) /\
  (forall n, for_each (repeat key n) Cache_invalidate w
             = (Return tt, logged (repeat invalidation n) w)) /\
  (forall recs, storage (logged recs w) = storage w /\
                Cache_size (logged recs w) = (Return (dict_len (storage w)),
                                              logged recs w)).
Proof.
  intros H removal invalidation.
  split; [now apply Cache_remove_absent |].
  split; [now apply Cache_remove_absent |].
  split; [now apply Cache_invalidate_absent |].
  split; [| split].
  - intro n.
    apply (for_each_absent Cache_remove
             (fun k => mkLog "Cache" WARNING
                         [Lit "Cache item with ID "; Fmt (PInt k);
                          Lit " does not exist. Aborting removal."]));
      [exact H | intros w' H'; now apply Cache_remove_absent].
  - intro n.
    apply (for_each_absent Cache_invalidate
             (fun k => mkLog "Cache" WARNING
                         [Lit "Cache item with ID "; Fmt (PInt k);
                          Lit " does not exist. Aborting invalidation."]));
      [exact H | intros w' H'; now apply Cache_invalidate_absent].
  - intro recs. split; reflexivity.
Qed.

Lemma remove_invalidate_absent_noop_witness :
  dict_get 7 (storage world_with_a1) = None /\
  for_each (repeat 7 3) Cache_remove world_with_a1
  = (Return tt,
     logged (repeat (mkLog "Cache" WARNING
                       [Lit "Cache item with ID "; Fmt (PInt 7);
                        Lit " does not exist. Aborting removal."]) 3)
            world_with_a1).
Proof.
  split; [reflexivity |].
  apply (proj1 (proj2 (proj2 (proj2
           (remove_invalidate_absent_noop world_with_a1 7 eq_refl))))).
Defined.

(** ** Reads *)

(** C10: [get], [size], the membership test [__contains__] and
    [get_by_key], on the cache and through the service, leave the storage
    dictionary exactly as it was, whether they return or raise. *)
Theorem reads_leave_storage_unchanged (w : World) (id : Z) (key : PyVal) :
  storage (snd (Cache_get id w)) = storage w /\
  storage (snd (Cache_size w)) = storage w /\
  storage (snd (Cache_contains key w)) = storage w /\
  storage (snd (Cache_get_by_key key w)) = storage w /\
  storage (snd (CacheService_get id w)) = storage w /\
  storage (snd (CacheService_size w)) = storage w /\
  storage (snd (CacheService_get_by_key key w)) = storage w.
Proof.
  split; [apply keeps_Cache_get |].
  split; [apply keeps_Cache_size |].
  split; [apply keeps_Cache_contains |].
  split; [apply keeps_Cache_get_by_key |].
  split; [apply keeps_CacheService_get |].
  split; [apply keeps_Cache_size |].
  apply keeps_CacheService_get_by_key.
Qed.

(** An expired entry is returned by [get] and stays where it is: here the
    clock stands a second after the expiration of the stored entry. *)
Example get_returns_expired_entry_and_keeps_it :
  let w := mkWorld (frozen 301000000) 0 10001 [] [(10000, item_a1)] in
  fst (CacheItem_is_expired item_a1 w) = Return true /\
  Cache_get 10000 w = (Return (Some item_a1), w) /\
  fst (Cache_contains (PInt 10000) w) = Return false /\
  storage (snd (Cache_contains (PInt 10000) w)) = [(10000, item_a1)] /\
  fst (Cache_get_by_key (PStr "a") w) = Return None /\
  storage (snd (Cache_get_by_key (PStr "a") w)) = [(10000, item_a1)].
Proof. repeat split. Qed.

(** ** Cache.invalidate_expired *)

Lemma after_readings_0 w : after_readings 0 w = w.
Proof. now destruct w. Qed.

Lemma after_readings_S n w :
  after_readings n (after_readings 1 w) = after_readings (S n) w.
Proof. unfold after_readings. cbn. now rewrite Nat.add_succ_r. Qed.

Lemma scan_flags_length clk n items :
  length (scan_flags clk n items) = length items.
Proof.
  revert n. induction items as [| item rest IH]; intro n; cbn; [reflexivity |].
  now rewrite IH.
Qed.

(** The scan reads the clock once per entry and changes nothing else. *)
Lemma expired_ids_of_run items w :
  expired_ids_of items w
  = (Return (flagged_ids items (scan_flags (clock w) (now_calls w) items)),
     after_readings (length items) w).
Proof.
  revert w. induction items as [| item rest IH]; intro w.
  - cbn. unfold ret. now rewrite after_readings_0.
  - cbn [expired_ids_of scan_flags flagged_ids length].
    unfold CacheItem_is_expired.
    change (bind (bind DateUtil_now (fun now => ret (now >? _expires_at item))) ?k w)
      with (bind (expired_ids_of rest)
                 (fun ids => ret (if clock w (now_calls w) >? _expires_at item
                                  then _id item :: ids else ids))
                 (after_readings 1 w)).
    erewrite bind_return by apply IH.
    unfold ret. rewrite after_readings_S. reflexivity.
Qed.

Lemma flagged_ids_in d flags k :
  Forall (fun kv : Z * CacheItem => _id (snd kv) = fst kv) d ->
  In k (flagged_ids (dict_values d) flags) -> In k (dict_keys d).
Proof.
  revert flags. induction d as [| [k' item] d IH]; intros flags Hid Hin.
  - destruct flags; contradiction.
  - inversion Hid as [| ? ? Hk Hrest]; subst. cbn in Hk.
    destruct flags as [| [|] flags]; cbn in Hin |- *.
    + contradiction.
    + destruct Hin as [<- | Hin]; [now left | right; eauto].
    + right; eauto.
Qed.

Lemma flagged_ids_NoDup d flags :
  storage_wf d -> NoDup (flagged_ids (dict_values d) flags).
Proof.
  intros [Hnd Hid]. revert flags.
  induction d as [| [k item] d IH]; intro flags.
  - destruct flags; constructor.
  - inversion Hnd as [| ? ? Hnotin Hnd']; subst.
    inversion Hid as [| ? ? Hk Hid']; subst. cbn in Hk.
    destruct flags as [| [|] flags]; cbn.
    + constructor.
    + constructor; [| now apply IH].
      intro Hin. apply Hnotin. rewrite Hk in Hin.
      now apply flagged_ids_in with flags.
    + now apply IH.
Qed.

Lemma dict_get_present {V} (k : Z) (d : dict V) :
  In k (dict_keys d) -> exists v, dict_get k d = Some v.
Proof.
  intro H. destruct (dict_get k d) as [v |] eqn:E; [eauto |].
  apply dict_get_in_keys in E. contradiction.
Qed.

Lemma dict_remove_keeps_others {V} (k k' : Z) (d : dict V) :
  k' <> k -> In k' (dict_keys d) -> In k' (dict_keys (dict_remove k d)).
Proof.
  intro Hne. induction d as [| [k0 v] d IH]; cbn; [tauto |].
  destruct (Z.eqb_spec k0 k) as [-> | Hk].
  - intros [H | H]; [congruence | assumption].
  - cbn. intros [H | H]; [now left | right; auto].
Qed.

(** The loop over the expired ids pops them one after the other. *)
Lemma for_each_invalidate_run ids w :
  NoDup ids -> incl ids (dict_keys (storage w)) ->
  for_each ids Cache_invalidate w
  = (Return tt,
     logged (invalidated_lines ids) (with_storage (remove_all ids (storage w)) w)).
Proof.
  revert w. induction ids as [| k ids IH]; intros w Hnd Hincl.
  - cbn. unfold ret, with_storage. rewrite logged_nil. now destruct w.
  - inversion Hnd as [| ? ? Hnotin Hnd']; subst.
    destruct (dict_get_present k (storage w)) as [item Hitem];
      [apply Hincl; now left |].
    cbn [for_each].
    erewrite bind_return by (eapply Cache_invalidate_present; exact Hitem).
    rewrite IH; [| assumption |].
    + unfold logged, with_storage. cbn. rewrite <- app_assoc. reflexivity.
    + intros k' Hk'. cbn. apply dict_remove_keeps_others.
      * intros ->. contradiction.
      * apply Hincl. now right.
Qed.

Lemma remove_all_skip {V} ids k (v : V) d :
  ~ In k ids -> remove_all ids ((k, v) :: d) = (k, v) :: remove_all ids d.
Proof.
  revert d. induction ids as [| k' ids IH]; intros d Hnotin; [reflexivity |].
  cbn in *. destruct (Z.eqb_spec k k') as [-> | Hne]; [tauto |].
  apply IH. tauto.
Qed.

Lemma remove_all_flagged d flags :
  storage_wf d -> length flags = length d ->
  remove_all (flagged_ids (dict_values d) flags) d = survivors d flags.
Proof.
  revert flags. induction d as [| [k item] d IH]; intros flags Hwf Hlen.
  - destruct flags; reflexivity.
  - destruct Hwf as [Hnd Hid].
    inversion Hnd as [| ? ? Hnotin Hnd']; subst.
    inversion Hid as [| ? ? Hk Hid']; subst. cbn in Hk.
    destruct flags as [| b flags]; [discriminate |].
    injection Hlen as Hlen.
    destruct b; cbn [dict_values map snd flagged_ids survivors].
    + unfold remove_all. cbn [fold_left dict_remove]. rewrite Hk, Z.eqb_refl.
      apply IH; [split |]; assumption.
    + rewrite remove_all_skip.
      * f_equal. apply IH; [split |]; assumption.
      * intro Hin. apply Hnotin. now apply flagged_ids_in with flags.
Qed.

Lemma flagged_ids_nil items flags :
  length flags = length items ->
  (flagged_ids items flags = [] <-> existsb (fun b => b) flags = false).
Proof.
  revert flags. induction items as [| item rest IH]; intros [| b flags] Hlen;
    try discriminate; cbn; [tauto |].
  injection Hlen as Hlen. destruct b; cbn.
  - split; discriminate.
  - now apply IH.
Qed.

Lemma survivors_all d flags :
  length flags = length d -> existsb (fun b => b) flags = false ->
  survivors d flags = d.
Proof.
  revert flags. induction d as [| kv d IH]; intros [| b flags] Hlen;
    try discriminate; cbn; [reflexivity |].
  injection Hlen as Hlen. destruct b; cbn; [discriminate |].
  intro H. now rewrite IH.
Qed.

Lemma survivors_nth d flags kv :
  In kv (survivors d flags) <->
  exists i, nth_error d i = Some kv /\ nth_error flags i = Some false.
Proof.
  revert flags. induction d as [| kv' d IH]; intro flags.
  - cbn. split; [tauto |]. intros [[| i] [H _]]; discriminate.
  - destruct flags as [| b flags].
    + cbn. split; [tauto |]. intros [[| i] [_ H]]; discriminate.
    + cbn [survivors]. destruct b.
      * rewrite IH. split.
        -- intros [i Hi]. now exists (S i).
        -- intros [[| i] [H1 H2]]; [discriminate | now exists i].
      * cbn [In]. rewrite IH. split.
        -- intros [<- | [i Hi]]; [now exists O | now exists (S i)].
        -- intros [[| i] [H1 H2]].
           ++ left. cbn in H1. congruence.
           ++ right. now exists i.
Qed.

Lemma survivors_frozen clk n t d :
  (forall i, (i < length d)%nat -> clk (i + n)%nat = t) ->
  survivors d (scan_flags clk n (dict_values d))
  = filter (fun kv => negb (t >? _expires_at (snd kv))) d.
Proof.
  revert n. induction d as [| [k item] d IH]; intros n H; [reflexivity |].
  cbn [dict_values map snd scan_flags survivors filter].
  assert (H0 : clk n = t) by (apply (H O); cbn; lia).
  rewrite H0.
  assert (IH' : survivors d (scan_flags clk (S n) (dict_values d))
                = filter (fun kv => negb (t >? _expires_at (snd kv))) d).
  { apply IH. intros i Hi. rewrite Nat.add_succ_r. apply (H (S i)). cbn. lia. }
  unfold dict_values in IH'. rewrite IH'.
  now destruct (t >? _expires_at item).
Qed.

Lemma Cache_invalidate_expired_run w :
  storage_wf (storage w) ->
  let d := storage w in
  let flags := scan_flags (clock w) (now_calls w) (dict_values d) in
  Cache_invalidate_expired w
  = (Return tt,
     if existsb (fun b => b) flags
     then logged (invalidated_lines (flagged_ids (dict_values d) flags)
                  ++ [mkLog "Cache" INFO [Lit "Expired cache items invalidated"]])
                 (with_storage (survivors d flags) (after_readings (length d) w))
     else logged [mkLog "Cache" WARNING
                    [Lit "No expired cache items found. Aborting invalidation."]]
                 (after_readings (length d) w)).
Proof.
  intros Hwf d flags.
  assert (Hlen : length flags = length (dict_values d))
    by apply scan_flags_length.
  assert (Hlen' : length flags = length d)
    by (rewrite Hlen; apply length_map).
  unfold Cache_invalidate_expired.
  change (bind get_storage ?k w) with (k d w). cbv beta.
  erewrite bind_return by apply expired_ids_of_run.
  replace (length (dict_values d)) with (length d)
    by (unfold dict_values; now rewrite length_map).
  fold flags.
  destruct (existsb (fun b => b) flags) eqn:E.
  - destruct (flagged_ids (dict_values d) flags) as [| k ids] eqn:Eids.
    + apply flagged_ids_nil in Eids; [congruence | assumption].
    + cbn [length Z.of_nat Z.eqb].
      rewrite <- Eids.
      erewrite bind_return.
      2:{ apply for_each_invalidate_run.
          - now apply flagged_ids_NoDup.
          - intros k' Hk'. cbn. apply flagged_ids_in with flags.
            + apply Hwf.
            + exact Hk'. }
      rewrite log_run, logged_logged. cbn [storage after_readings].
      fold d. rewrite remove_all_flagged by assumption.
      reflexivity.
  - apply (flagged_ids_nil (dict_values d)) in E; [| assumption]. rewrite E.
    reflexivity.
Qed.

(** The invariant of the storage holds of the empty cache and is kept by
    every method that writes to it. *)
Lemma storage_wf_nil : storage_wf [].
Proof. split; constructor. Qed.

Lemma dict_setitem_keys {V} (k : Z) (v : V) (d : dict V) :
  dict_keys (dict_setitem k v d)
  = if existsb (Z.eqb k) (dict_keys d) then dict_keys d else dict_keys d ++ [k].
Proof.
  induction d as [| [k' v'] d IH]; cbn; [reflexivity |].
  rewrite (Z.eqb_sym k k'). destruct (Z.eqb_spec k' k) as [-> | Hne]; cbn.
  - reflexivity.
  - unfold dict_keys in IH. rewrite IH.
    now destruct (existsb (Z.eqb k) (map fst d)).
Qed.

Lemma storage_wf_setitem (value : CacheItem) d :
  storage_wf d -> storage_wf (dict_setitem (_id value) value d).
Proof.
  intros [Hnd Hid]. split.
  - rewrite dict_setitem_keys.
    destruct (existsb (Z.eqb (_id value)) (dict_keys d)) eqn:E; [assumption |].
    apply NoDup_app; [assumption | repeat constructor; intros [] |].
    intros k Hk [Heq | []]. subst k.
    assert (existsb (Z.eqb (_id value)) (dict_keys d) = true); [| congruence].
    apply existsb_exists. exists (_id value).
    split; [assumption | apply Z.eqb_refl].
  - clear Hnd. induction Hid as [| [k' v'] d Hk Hid IH]; cbn.
    + repeat constructor.
    + destruct (k' =? _id value); constructor; auto.
Qed.

Lemma storage_wf_remove k d : storage_wf d -> storage_wf (dict_remove k d).
Proof.
  intros [Hnd Hid]. induction d as [| [k' v'] d IH]; cbn; [split; constructor |].
  inversion Hnd as [| ? ? Hnotin Hnd']; subst.
  inversion Hid as [| ? ? Hk Hid']; subst.
  destruct (Z.eqb_spec k' k) as [-> | Hne]; [now split |].
  destruct (IH Hnd' Hid') as [IH1 IH2]. split; cbn.
  - constructor; [| assumption].
    intro Hin. apply Hnotin. clear - Hin.
    induction d as [| [k0 v0] d IHd]; cbn in *; [assumption |].
    destruct (k0 =? k); cbn in *; tauto.
  - constructor; assumption.
Qed.

Lemma storage_wf_two_entries : storage_wf (storage world_two_entries).
Proof.
  split; cbn.
  - repeat constructor; cbn; intuition discriminate.
  - repeat constructor.
Qed.

(** C6: on a storage filled through the cache's methods,
    [invalidate_expired] returns normally and leaves in storage exactly
    the entries that answered [False] to [is_expired()] during its scan,
    unchanged and in their order; with a clock that stands at [t] during
    the scan these are the entries with [not (t > expires_at)].  When no
    entry answered [True] it logs one warning and the storage is as
    before. *)
Theorem invalidate_expired_removes_exactly_expired (w : World) :
  storage_wf (storage w) ->
  let d := storage w in
  let flags := scan_flags (clock w) (now_calls w) (dict_values d) in
  let w' := snd (Cache_invalidate_expired w) in
  fst (Cache_invalidate_expired w) = Return tt /\
  storage w' = survivors d flags /\
  (forall kv, In kv (storage w') <->
              exists i, nth_error d i = Some kv /\ nth_error flags i = Some false) /\
  (forall t, (forall i, (i < length d)%nat -> clock w (i + now_calls w)%nat = t) ->
             storage w' = filter (fun kv => negb (t >? _expires_at (snd kv))) d) /\
  (existsb (fun b => b) flags = false ->
   storage w' = d /\
   w' = logged [mkLog "Cache" WARNING
                  [Lit "No expired cache items found. Aborting invalidation."]]
               (after_readings (length d) w)).
Proof.
  intros Hwf d flags w'.
  assert (Hlen : length flags = length d).
  { unfold flags. rewrite scan_flags_length. apply length_map. }
  assert (Hst : storage w' = survivors d flags).
  { unfold w'. rewrite (Cache_invalidate_expired_run w Hwf). fold d flags.
    cbn [snd]. destruct (existsb (fun b => b) flags) eqn:E; cbn.
    - reflexivity.
    - fold d. symmetry. now apply survivors_all. }
  split; [now rewrite (Cache_invalidate_expired_run w Hwf) |].
  split; [exact Hst |].
  split; [intro kv; rewrite Hst; apply survivors_nth |].
  split.
  - intros t Ht. rewrite Hst. now apply survivors_frozen.
  - intro E. split.
    + rewrite Hst. now apply survivors_all.
    + unfold w'. rewrite (Cache_invalidate_expired_run w Hwf). fold d flags.
      now rewrite E.
Qed.

Lemma invalidate_expired_removes_exactly_expired_witness :
  storage_wf (storage world_two_entries) /\
  storage (snd (Cache_invalidate_expired world_two_entries))
  = [(10001, item_made_at 200000000 10001 300 (PStr "hello"))].
Proof.
  split; [exact storage_wf_two_entries |].
  apply (proj1 (proj2
           (invalidate_expired_removes_exactly_expired
              world_two_entries storage_wf_two_entries))).
Defined.

(** With no expired entry the sweep only reports so. *)
Example invalidate_expired_nothing_to_do :
  Cache_invalidate_expired world_with_a1
  = (Return tt,
     logged [mkLog "Cache" WARNING
               [Lit "No expired cache items found. Aborting invalidation."]]
            (after_readings 1 world_with_a1)).
Proof. reflexivity. Qed.

(** ** Ids *)

Lemma CacheItemFactory_create_run value time_to_live w :
  CacheItemFactory_create value time_to_live w
  = (Return (item_made_at (clock w (now_calls w)) (BASE_ID w) time_to_live value),
     mkWorld (clock w) (S (now_calls w)) (BASE_ID w + 1) (records w) (storage w)).
Proof. reflexivity. Qed.

Lemma ids_from_length b n : length (ids_from b n) = n.
Proof. revert b. induction n; intro b; cbn; congruence. Qed.

Lemma ids_from_bounds b n k : In k (ids_from b n) -> b <= k < b + Z.of_nat n.
Proof.
  revert b. induction n as [| n IH]; intros b; cbn [ids_from In]; [tauto |].
  intros [<- | H]; [lia |]. apply IH in H. lia.
Qed.

Lemma ids_from_NoDup b n : NoDup (ids_from b n).
Proof.
  revert b. induction n as [| n IH]; intro b; cbn; constructor; [| apply IH].
  intro H. apply ids_from_bounds in H. lia.
Qed.

(** The factory hands out the ids [BASE_ID], [BASE_ID + 1], ... in turn,
    and filing each new entry with [set] makes the cache grow by one. *)
Lemma create_and_set_all_run values time_to_live w :
  (forall k, In k (dict_keys (storage w)) -> k < BASE_ID w) ->
  exists w',
    create_and_set_all values time_to_live w
    = (Return (ids_from (BASE_ID w) (length values)), w') /\
    BASE_ID w' = BASE_ID w + Z.of_nat (length values) /\
    length (storage w') = (length (storage w) + length values)%nat /\
    (forall k, In k (dict_keys (storage w')) -> k < BASE_ID w').
Proof.
  revert w. induction values as [| v rest IH]; intros w Hlt.
  - exists w. cbn. repeat split; try lia; auto.
  - cbn [create_and_set_all].
    erewrite bind_return by apply CacheItemFactory_create_run.
    unfold Cache_set, get_storage, set_storage, log, bind, ret at 1.
    cbn [storage clock now_calls BASE_ID records item_made_at _id].
    rewrite dict_setitem_fresh
      by (intro Hin; apply Hlt in Hin; lia).
    match goal with
    | |- context [create_and_set_all rest time_to_live ?w1] =>
        destruct (IH w1) as (w' & Hrun & Hbase & Hlen & Hlt')
    end.
    { cbn. unfold dict_keys. rewrite map_app. intros k Hk.
      apply in_app_or in Hk. destruct Hk as [Hk | [<- | []]].
      - apply Hlt in Hk. lia.
      - cbn. lia. }
    exists w'. rewrite Hrun. cbn in Hbase, Hlen |- *.
    rewrite length_app in Hlen. cbn in Hlen.
    repeat split; try assumption; lia.
Qed.

Lemma create_and_set_all_fresh values time_to_live clk :
  exists w',
    create_and_set_all values time_to_live (fresh_world clk)
    = (Return (ids_from 10000 (length values)), w') /\
    NoDup (ids_from 10000 (length values)) /\
    Cache_size w' = (Return (Z.of_nat (length values)), w').
Proof.
  destruct (create_and_set_all_run values time_to_live (fresh_world clk))
    as (w' & Hrun & _ & Hlen & _); [intros k [] |].
  exists w'. split; [exact Hrun |]. split; [apply ids_from_NoDup |].
  unfold Cache_size, bind, get_storage, ret, dict_len. now rewrite Hlen.
Qed.

(** C9, on the code: the first [add] of a series raises [TypeError], so
    that no id is handed out and the size of the cache, 0 at the start,
    is still 0 after the attempt, whatever the number of values. *)
Theorem add_all_stores_nothing
  (v : PyVal) (rest : list PyVal) (ttl : Z) (clk : nat -> timestamp) :
  CacheService_size (fresh_world clk) = (Return 0, fresh_world clk) /\
  add_all (v :: rest) ttl (fresh_world clk)
  = (Raise (TypeError "got an unexpected keyword argument"), fresh_world clk) /\
  fst (CacheService_size (snd (add_all (v :: rest) ttl (fresh_world clk))))
  = Return 0 /\
  0 <> Z.of_nat (length (v :: rest)).
Proof.
  split; [reflexivity |]. split; [reflexivity |]. split; [reflexivity |].
  cbn [length]. lia.
Qed.

(** ** The background thread *)

Lemma Cache_invalidate_returns key w :
  exists w', Cache_invalidate key w = (Return tt, w').
Proof.
  unfold Cache_invalidate, storage_pop, bind, get_storage, set_storage, ret.
  cbn. destruct (dict_get key (storage w)); eexists; reflexivity.
Qed.

Lemma for_each_invalidate_returns ids w :
  exists w', for_each ids Cache_invalidate w = (Return tt, w').
Proof.
  revert w. induction ids as [| k ids IH]; intro w; cbn [for_each].
  - eexists. reflexivity.
  - destruct (Cache_invalidate_returns k w) as [w1 H1].
    erewrite bind_return by exact H1. apply IH.
Qed.

(** The sweep returns on every storage. *)
Lemma Cache_invalidate_expired_returns w :
  exists w', Cache_invalidate_expired w = (Return tt, w').
Proof.
  unfold Cache_invalidate_expired.
  change (bind get_storage ?k w) with (k (storage w) w). cbv beta.
  erewrite bind_return by apply expired_ids_of_run.
  destruct (Z.of_nat _ =? 0).
  - eexists. reflexivity.
  - match goal with
    | |- context [for_each ?ids Cache_invalidate] =>
        destruct (for_each_invalidate_returns ids
                    (after_readings (length (dict_values (storage w))) w))
          as [w1 H1]
    end.
    erewrite bind_return by exact H1. eexists. reflexivity.
Qed.

Lemma cleanup_body_run w :
  cleanup_body w
  = (Return tt,
     logged [mkLog "CacheService" DEBUG [Lit "Periodic cache cleanup completed"]]
       (snd (Cache_invalidate_expired
               (logged [mkLog "CacheService" DEBUG
                          [Lit "Running periodic cache cleanup"]] w)))).
Proof.
  unfold cleanup_body.
  erewrite bind_return by apply log_run.
  destruct (Cache_invalidate_expired_returns
              (logged [mkLog "CacheService" DEBUG
                         [Lit "Running periodic cache cleanup"]] w)) as [w1 H1].
  rewrite H1. erewrite bind_return by exact H1. reflexivity.
Qed.

Lemma sweeps_app t1 t2 : sweeps (t1 ++ t2) = (sweeps t1 + sweeps t2)%nat.
Proof.
  induction t1 as [| e t1 IH]; cbn; [reflexivity |].
  destruct e; cbn; now rewrite IH.
Qed.

Lemma iter_Done (step : Service -> Service) n s :
  (forall s, pc s = Done -> step s = s) ->
  pc s = Done -> Nat.iter n step s = s.
Proof.
  intros Hstep Hs. induction n as [| n IH]; [reflexivity |].
  rewrite Nat.iter_succ, IH. now apply Hstep.
Qed.

(** The order of the specification does have the property: a thread that
    tested the signal after the sleep would not sweep again. *)
Lemma spec_order_prevents_sweep :
  stop_during_sleep_prevents_sweep spec_thread_step.
Proof.
  intros s n Hpc Hstop.
  assert (H1 : sweeps (trace (spec_thread_step s)) = sweeps (trace s) /\
               (pc (spec_thread_step s) = Done \/
                pc (spec_thread_step s) = AtWhile /\
                _stop_event (spec_thread_step s) = true)).
  { unfold spec_thread_step. rewrite Hpc.
    destruct (sleep_outcome s); cbn; rewrite sweeps_app; cbn;
      (split; [lia | auto]). }
  assert (Hdone : forall s0, pc s0 = Done -> spec_thread_step s0 = s0).
  { intros s0 Hs0. unfold spec_thread_step. now rewrite Hs0; destruct s0. }
  assert (H2 : sweeps (trace (spec_thread_step (spec_thread_step s)))
               = sweeps (trace s) /\
               pc (spec_thread_step (spec_thread_step s)) = Done).
  { destruct H1 as (Hsw & [Hd | (Hw & Hst)]).
    - rewrite (Hdone _ Hd). split; assumption.
    - set (s1 := spec_thread_step s) in *.
      unfold spec_thread_step. rewrite Hw, Hst. cbn.
      rewrite sweeps_app. cbn. split; [lia | reflexivity]. }
  destruct n as [| [| n]]; [reflexivity | apply H1 |].
  rewrite !Nat.iter_succ_r. rewrite iter_Done; [apply H2 | exact Hdone | apply H2].
Qed.

(** C4, as stated, fails on the code: the owner sets the stop signal
    while the thread of [service_two_entries] is at its sleep; the thread
    then sweeps (the expired entry 10000 leaves the storage), updates
    [_last_operation_at], and only then tests the signal and exits. *)
Lemma stop_during_sleep_still_sweeps :
  let s := run [ThreadStep; SetStop] service_two_entries in
  let s' := run [ThreadStep; ThreadStep; ThreadStep; ThreadStep] s in
  pc s = AtSleep /\ _stop_event s = true /\
  dict_keys (storage (world s)) = [10000; 10001] /\
  trace s' = [Slept 300; Swept; Updated 301000000; Exited] /\
  dict_keys (storage (world s')) = [10001] /\
  ~ stop_during_sleep_prevents_sweep thread_step.
Proof.
  cbv zeta. repeat (split; [reflexivity |]).
  intro H.
  specialize (H (run [ThreadStep; SetStop] service_two_entries) 2%nat eq_refl eq_refl).
  vm_compute in H. discriminate.
Qed.

Lemma step_AtWhile_set s :
  pc s = AtWhile -> _stop_event s = true ->
  thread_step s
  = mkService (sleep_limit s) (world s) (_last_operation_at s) (service_time_to_live s)
              true Done (trace s ++ [Exited]).
Proof. intros Hpc Hstop. unfold thread_step. now rewrite Hpc, Hstop. Qed.

Lemma step_AtWhile_unset s :
  pc s = AtWhile -> _stop_event s = false ->
  thread_step s
  = mkService (sleep_limit s) (world s) (_last_operation_at s) (service_time_to_live s)
              false AtSleep (trace s).
Proof. intros Hpc Hstop. unfold thread_step. now rewrite Hpc, Hstop. Qed.

Lemma big_float_bound : longest_timestamp < 2 ^ 1024 - 2 ^ 970.
Proof. vm_compute. reflexivity. Qed.

(** The intervals at which the sleep of the thread returns. *)
Lemma sleep_returns (s : Service) :
  0 <= service_time_to_live s <= longest_timestamp ->
  service_time_to_live s <= sleep_limit s (length (trace s)) ->
  sleep_outcome s = Return tt.
Proof.
  intros Hrange Hlimit. unfold sleep_outcome, py_float, time_sleep.
  pose proof big_float_bound as Hbig.
  set (big := 2 ^ 1024 - 2 ^ 970) in *.
  destruct (Z.leb_spec big (Z.abs (service_time_to_live s))); [lia |].
  destruct (Z.ltb_spec longest_timestamp (Z.abs (service_time_to_live s)));
    [lia |].
  destruct (Z.ltb_spec (service_time_to_live s) 0); [lia |].
  destruct (Z.ltb_spec (sleep_limit s (length (trace s)))
              (service_time_to_live s)); [lia | reflexivity].
Qed.

(** A negative interval, or one beyond the longest timestamp, makes the
    sleep raise whatever the platform. *)
Lemma sleep_refuses (s : Service) :
  (- longest_timestamp <= service_time_to_live s < 0 ->
   sleep_outcome s = Raise (ValueError "sleep length must be non-negative")) /\
  (longest_timestamp < Z.abs (service_time_to_live s) ->
   exists msg, sleep_outcome s = Raise (OverflowError msg)).
Proof.
  unfold sleep_outcome, py_float, time_sleep.
  pose proof big_float_bound as Hbig.
  set (big := 2 ^ 1024 - 2 ^ 970) in *.
  split; intro H.
  - destruct (Z.leb_spec big (Z.abs (service_time_to_live s))); [lia |].
    destruct (Z.ltb_spec longest_timestamp (Z.abs (service_time_to_live s)));
      [lia |].
    destruct (Z.ltb_spec (service_time_to_live s) 0); [reflexivity | lia].
  - destruct (Z.leb_spec big (Z.abs (service_time_to_live s)));
      [eexists; reflexivity |].
    destruct (Z.ltb_spec longest_timestamp (Z.abs (service_time_to_live s)));
      [eexists; reflexivity | lia].
Qed.

Lemma step_AtSleep s :
  pc s = AtSleep -> sleep_outcome s = Return tt ->
  thread_step s
  = mkService (sleep_limit s) (world s) (_last_operation_at s) (service_time_to_live s)
              (_stop_event s) AtCleanup
              (trace s ++ [Slept (service_time_to_live s)]).
Proof. intros Hpc Hsleep. unfold thread_step. now rewrite Hpc, Hsleep. Qed.

Lemma step_AtSleep_raises s e :
  pc s = AtSleep -> sleep_outcome s = Raise e ->
  thread_step s
  = mkService (sleep_limit s) (world s) (_last_operation_at s) (service_time_to_live s)
              (_stop_event s) Done (trace s ++ [Died e]).
Proof. intros Hpc Hsleep. unfold thread_step. now rewrite Hpc, Hsleep. Qed.

Lemma step_AtCleanup s :
  pc s = AtCleanup ->
  thread_step s
  = mkService (sleep_limit s) (snd (cleanup_body (world s))) (_last_operation_at s)
              (service_time_to_live s) (_stop_event s) AtUpdate
              (trace s ++ [Swept]).
Proof. intros Hpc. unfold thread_step. now rewrite Hpc, cleanup_body_run. Qed.

Lemma step_AtUpdate s :
  pc s = AtUpdate ->
  thread_step s
  = mkService (sleep_limit s) (after_readings 1 (world s))
              (clock (world s) (now_calls (world s)))
              (service_time_to_live s) (_stop_event s) AtWhile
              (trace s ++ [Updated (clock (world s) (now_calls (world s)))]).
Proof. intros Hpc. unfold thread_step. now rewrite Hpc. Qed.

(** C4, amended: the thread consults the stop signal at one place only,
    the test of the [while].  There it exits when the signal is set and
    goes to sleep when it is not.  From the sleep on it does not look at
    the signal again: when the sleep of [_time_to_live] seconds returns
    (an interval from 0 to 9223372036 seconds that the platform accepts
    as a sleep), it runs [invalidate_expired], then stores the time in
    [_last_operation_at], and comes back to the test; when the sleep
    raises, the thread ends there, without a sweep.  A signal set during
    a sleep that returns therefore ends the loop only after the sweep and
    the update of that round. *)
Theorem loop_tests_stop_signal_before_sleeping (s : Service) :
  (pc s = AtWhile -> _stop_event s = true ->
   thread_step s
   = mkService (sleep_limit s) (world s) (_last_operation_at s) (service_time_to_live s)
               true Done (trace s ++ [Exited])) /\
  (pc s = AtWhile -> _stop_event s = false ->
   thread_step s
   = mkService (sleep_limit s) (world s) (_last_operation_at s) (service_time_to_live s)
               false AtSleep (trace s)) /\
  (pc s = AtSleep ->
   0 <= service_time_to_live s <= 9223372036 ->
   service_time_to_live s <= sleep_limit s (length (trace s)) ->
   thread_step s
   = mkService (sleep_limit s) (world s) (_last_operation_at s) (service_time_to_live s)
               (_stop_event s) AtCleanup
               (trace s ++ [Slept (service_time_to_live s)])) /\
  (pc s = AtSleep ->
   forall e, sleep_outcome s = Raise e ->
   thread_step s
   = mkService (sleep_limit s) (world s) (_last_operation_at s) (service_time_to_live s)
               (_stop_event s) Done (trace s ++ [Died e])) /\
  (pc s = AtCleanup ->
   thread_step s
   = mkService (sleep_limit s) (snd (cleanup_body (world s))) (_last_operation_at s)
               (service_time_to_live s) (_stop_event s) AtUpdate
               (trace s ++ [Swept]) /\
   storage (snd (cleanup_body (world s)))
   = storage (snd (Cache_invalidate_expired
                     (logged [mkLog "CacheService" DEBUG
                                [Lit "Running periodic cache cleanup"]]
                             (world s))))) /\
  (pc s = AtUpdate ->
   thread_step s
   = mkService (sleep_limit s) (after_readings 1 (world s))
               (clock (world s) (now_calls (world s)))
               (service_time_to_live s) (_stop_event s) AtWhile
               (trace s ++ [Updated (clock (world s) (now_calls (world s)))])) /\
  (pc s = AtSleep ->
   0 <= service_time_to_live s <= 9223372036 ->
   service_time_to_live s <= sleep_limit s (length (trace s)) ->
   _stop_event s = true ->
   let s' := Nat.iter 4 thread_step s in
   pc s' = Done /\
   trace s'
   = trace s ++ [Slept (service_time_to_live s); Swept;
                 Updated (_last_operation_at s'); Exited] /\
   storage (world s') = storage (snd (cleanup_body (world s)))).
Proof.
  split; [| split; [| split; [| split; [| split; [| split]]]]].
  - intros Hpc Hstop. now apply step_AtWhile_set.
  - intros Hpc Hstop. now apply step_AtWhile_unset.
  - intros Hpc Hrange Hlimit. apply step_AtSleep; [assumption |].
    now apply sleep_returns.
  - intros Hpc e He. now apply step_AtSleep_raises.
  - intros Hpc. split; [now apply step_AtCleanup |].
    now rewrite cleanup_body_run.
  - apply step_AtUpdate.
  - intros Hpc Hrange Hlimit Hstop. cbv zeta.
    change (Nat.iter 4 thread_step s)
      with (thread_step (thread_step (thread_step (thread_step s)))).
    rewrite (step_AtSleep s Hpc (sleep_returns s Hrange Hlimit)).
    match goal with
    | |- context [thread_step (thread_step (thread_step ?x))] =>
        rewrite (step_AtCleanup x eq_refl)
    end.
    match goal with
    | |- context [thread_step (thread_step ?x)] =>
        rewrite (step_AtUpdate x eq_refl)
    end.
    match goal with
    | |- context [thread_step ?x] =>
        rewrite (step_AtWhile_set x eq_refl Hstop)
    end.
    cbn. split; [reflexivity |]. split; [| reflexivity].
    rewrite <- !app_assoc. reflexivity.
Qed.

Lemma loop_tests_stop_signal_before_sleeping_witness :
  let s := run [ThreadStep; SetStop] service_two_entries in
  pc s = AtSleep /\ 0 <= service_time_to_live s <= 9223372036 /\
  service_time_to_live s <= sleep_limit s (length (trace s)) /\
  _stop_event s = true /\
  pc (Nat.iter 4 thread_step s) = Done /\
  storage (world (Nat.iter 4 thread_step s))
  = storage (snd (cleanup_body (world s))).
Proof.
  cbv zeta. split; [reflexivity |]. split; [cbn; lia |].
  split; [cbn; lia |]. split; [reflexivity |].
  pose proof (proj2 (proj2 (proj2 (proj2 (proj2 (proj2
    (loop_tests_stop_signal_before_sleeping
       (run [ThreadStep; SetStop] service_two_entries)))))))
    eq_refl ltac:(cbn; lia) ltac:(cbn; lia) eq_refl) as H.
  cbv zeta in H. destruct H as (H1 & _ & H3). split; assumption.
Defined.

(** With the signal set the thread is done after at most four more
    statements: [join] returns, and so does [shutdown]. *)
Lemma shutdown_returns (s : Service) :
  exists s', CacheService_shutdown 4 s = Some s' /\ pc s' = Done /\
             _stop_event s' = true.
Proof.
  unfold CacheService_shutdown.
  assert (H : exists s1, join 4 (shutdown_set s) = Some s1 /\ pc s1 = Done
                         /\ _stop_event s1 = true).
  { set (s0 := shutdown_set s).
    assert (Hstop : _stop_event s0 = true) by reflexivity.
    clearbody s0. destruct s0 as [lim w la ttl stop p tr].
    cbn in Hstop. subst stop.
    destruct p; cbn [join pc thread_step world _stop_event service_time_to_live];
      try match goal with
          | |- context [sleep_outcome ?x] => destruct (sleep_outcome x)
          end;
      cbn [join pc thread_step world _stop_event service_time_to_live];
      rewrite ?cleanup_body_run; cbn [join pc thread_step world _stop_event
                                      DateUtil_now];
      eexists; (split; [reflexivity | split; reflexivity]). }
  destruct H as (s1 & Hjoin & Hpc & Hstop). rewrite Hjoin. cbn.
  eexists. split; [reflexivity |]. cbn. split; assumption.
Qed.

(** ** What the rest of the code does with an entry once it is stored *)

(** An entry made by the factory and filed by [set] is returned by [get]
    and is not expired as long as the clock has not passed its
    expiration: the only thing between [add] and this behaviour is the
    keyword of [with_time_to_live]. *)
Lemma created_entry_is_returned_and_live (v : PyVal) (ttl : Z) (w : World) :
  0 < ttl ->
  clock w (S (now_calls w)) <= clock w (now_calls w) + ttl * 1000000 ->
  fst ((cache_item <- CacheItemFactory_create v ttl ;;
        Cache_set cache_item ;;;
        x <- CacheService_get (_id cache_item) ;;
        expired <- CacheItem_is_expired cache_item ;;
        ret (_id cache_item, x, expired)) w)
  = Return (BASE_ID w, v, false).
Proof.
  intros Httl Hclock.
  erewrite bind_return by apply CacheItemFactory_create_run.
  unfold Cache_set, CacheService_get, Cache_get, CacheItem_is_expired,
    DateUtil_now, get_storage, set_storage, log, bind, ret.
  cbn. rewrite dict_get_setitem_same. cbn.
  unfold DateUtil_increment.
  destruct (Z.gtb_spec (clock w (S (now_calls w)))
              (clock w (now_calls w) + ttl * 1000000)); [lia | reflexivity].
Qed.

(** The guard of [CacheService.get_by_key] lets a key through only when
    it is the id of a live entry: the list [[10000]] stored under id
    10000 is found under the key 10000. *)
Example service_get_by_key_of_an_id :
  let item := item_made_at 0 10000 300 (PList [PInt 10000]) in
  let w := mkWorld (frozen 0) 1 10001 [] [(10000, item)] in
  fst (CacheService_get_by_key (PInt 10000) w) = Return (Some item).
Proof. reflexivity. Qed.

(** ** The invariant of the storage is kept by the methods of the cache *)

Lemma storage_wf_remove_all ids d : storage_wf d -> storage_wf (remove_all ids d).
Proof.
  revert d. induction ids as [| k ids IH]; intros d H; [exact H |].
  apply IH. now apply storage_wf_remove.
Qed.

Lemma methods_keep_storage_wf (w : World) :
  storage_wf (storage w) ->
  (forall value, storage_wf (storage (snd (Cache_set value w)))) /\
  (forall key, storage_wf (storage (snd (Cache_remove key w)))) /\
  (forall key, storage_wf (storage (snd (Cache_invalidate key w)))) /\
  storage_wf (storage (snd (Cache_clear w))) /\
  storage_wf (storage (snd (Cache_invalidate_expired w))) /\
  (forall value ttl, storage_wf (storage (snd (Cache_add value ttl w)))).
Proof.
  intro Hwf.
  split; [intro value; now apply storage_wf_setitem |].
  split.
  { intro key. unfold Cache_remove, storage_pop, bind, get_storage, set_storage, ret.
    cbn. destruct (dict_get key (storage w)); cbn; now apply storage_wf_remove. }
  split.
  { intro key. unfold Cache_invalidate, storage_pop, bind, get_storage,
      set_storage, ret.
    cbn. destruct (dict_get key (storage w)); cbn; now apply storage_wf_remove. }
  split; [apply storage_wf_nil |].
  split; [| intros value ttl; exact Hwf].
  rewrite (Cache_invalidate_expired_run w Hwf). cbn [snd].
  destruct (existsb _ _); cbn; [| exact Hwf].
  rewrite <- remove_all_flagged.
  - now apply storage_wf_remove_all.
  - exact Hwf.
  - rewrite scan_flags_length. apply length_map.
Qed.

(** * Further properties of the cache *)

(** ** set, get, remove, clear *)

Lemma dict_get_setitem_other {V} (k k' : Z) (v : V) (d : dict V) :
  k' <> k -> dict_get k' (dict_setitem k v d) = dict_get k' d.
Proof.
  intro Hne. induction d as [| [k0 v0] d IH]; cbn.
  - destruct (Z.eqb_spec k k'); [congruence | reflexivity].
  - destruct (Z.eqb_spec k0 k) as [-> | Hk]; cbn.
    + destruct (Z.eqb_spec k k'); [congruence | reflexivity].
    + destruct (k0 =? k'); [reflexivity | exact IH].
Qed.

Lemma dict_setitem_length {V} (k : Z) (v : V) (d : dict V) :
  length (dict_setitem k v d)
  = match dict_get k d with
    | Some _ => length d
    | None => S (length d)
    end.
Proof.
  induction d as [| [k0 v0] d IH]; cbn; [reflexivity |].
  destruct (k0 =? k); cbn; [reflexivity |].
  rewrite IH. now destruct (dict_get k d).
Qed.

Lemma dict_setitem_twice {V} (k : Z) (v : V) (d : dict V) :
  dict_setitem k v (dict_setitem k v d) = dict_setitem k v d.
Proof.
  induction d as [| [k0 v0] d IH]; cbn.
  - now rewrite Z.eqb_refl.
  - destruct (k0 =? k) eqn:E; cbn.
    + now rewrite Z.eqb_refl.
    + now rewrite E, IH.
Qed.

Lemma dict_get_remove_same {V} (k : Z) (d : dict V) :
  NoDup (dict_keys d) -> dict_get k (dict_remove k d) = None.
Proof.
  induction d as [| [k0 v0] d IH]; cbn; [reflexivity |].
  intro Hnd. inversion Hnd as [| ? ? Hnotin Hnd']; subst.
  destruct (Z.eqb_spec k0 k) as [-> | Hk].
  - now apply dict_get_in_keys.
  - cbn. destruct (Z.eqb_spec k0 k); [contradiction | now apply IH].
Qed.

Lemma dict_get_remove_other {V} (k k' : Z) (d : dict V) :
  k' <> k -> dict_get k' (dict_remove k d) = dict_get k' d.
Proof.
  intro Hne. induction d as [| [k0 v0] d IH]; cbn; [reflexivity |].
  destruct (Z.eqb_spec k0 k) as [-> | Hk]; cbn.
  - destruct (Z.eqb_spec k k'); [congruence | reflexivity].
  - destruct (k0 =? k'); [reflexivity | exact IH].
Qed.

Lemma dict_remove_length {V} (k : Z) (v : V) (d : dict V) :
  dict_get k d = Some v -> S (length (dict_remove k d)) = length d.
Proof.
  induction d as [| [k0 v0] d IH]; cbn; [discriminate |].
  destruct (k0 =? k); cbn; [reflexivity |].
  intro H. now rewrite IH.
Qed.

(** X1: [set] files an entry under its id: [get] of that id then returns
    the entry, [get] of any other id answers as before, the size grows by
    one when the id was new and stays when it was taken, and a second
    [set] of the same entry changes nothing in storage. *)
Theorem set_then_get (value : CacheItem) (w : World) :
  let w' := snd (Cache_set value w) in
  fst (Cache_set value w) = Return tt /\
  Cache_get (_id value) w' = (Return (Some value), w') /\
  (forall k, k <> _id value -> fst (Cache_get k w') = fst (Cache_get k w)) /\
  fst (Cache_size w')
  = Return (if truthy (dict_get (_id value) (storage w))
            then dict_len (storage w) else dict_len (storage w) + 1) /\
  storage (snd (Cache_set value w')) = storage w'.
Proof.
  cbv zeta.
  unfold Cache_set, Cache_get, Cache_size, get_storage, set_storage, log, bind, ret.
  cbn [fst snd storage].
  split; [reflexivity |].
  split; [now rewrite dict_get_setitem_same |].
  split; [intros k Hk; now rewrite dict_get_setitem_other |].
  split.
  - unfold dict_len. rewrite dict_setitem_length.
    destruct (dict_get (_id value) (storage w)); cbn [truthy]; f_equal; lia.
  - apply dict_setitem_twice.
Qed.

Lemma set_then_get_witness :
  fst (Cache_get 10000 (snd (Cache_set item_hello world_two_entries)))
  = Return (Some item_hello) /\
  fst (Cache_get 10001 (snd (Cache_set item_hello world_two_entries)))
  = fst (Cache_get 10001 world_two_entries).
Proof.
  split.
  - exact (f_equal fst
             (proj1 (proj2 (set_then_get item_hello world_two_entries)))).
  - apply (proj1 (proj2 (proj2 (set_then_get item_hello world_two_entries)))).
    cbn. lia.
Defined.

(** X2: [remove] of an id that is in storage returns normally, logs the
    removal, and takes out that entry and no other: [get] of the id is
    then [None], [get] of any other id answers as before, and the size is
    one less. *)
Theorem remove_present (key : Z) (cache_item : CacheItem) (w : World) :
  NoDup (dict_keys (storage w)) ->
  dict_get key (storage w) = Some cache_item ->
  let w' := snd (Cache_remove key w) in
  Cache_remove key w
  = (Return tt,
     logged [mkLog "Cache" INFO
               [Lit "Cache item removed with ID "; Fmt (PInt key)]]
            (with_storage (dict_remove key (storage w)) w)) /\
  fst (Cache_get key w') = Return None /\
  (forall k, k <> key -> fst (Cache_get k w') = fst (Cache_get k w)) /\
  fst (Cache_size w') = Return (dict_len (storage w) - 1).
Proof.
  intros Hnd Hget. cbv zeta.
  assert (Hrun : Cache_remove key w
                 = (Return tt,
                    logged [mkLog "Cache" INFO
                              [Lit "Cache item removed with ID "; Fmt (PInt key)]]
                           (with_storage (dict_remove key (storage w)) w))).
  { unfold Cache_remove, storage_pop, bind, get_storage, set_storage, ret.
    cbn. rewrite Hget. reflexivity. }
  rewrite Hrun. cbn [snd].
  unfold Cache_get, Cache_size, get_storage, bind, ret. cbn [fst storage logged
    with_storage].
  split; [reflexivity |].
  split; [now rewrite dict_get_remove_same |].
  split; [intros k Hk; now rewrite dict_get_remove_other |].
  unfold dict_len. rewrite <- (dict_remove_length key cache_item (storage w) Hget).
  f_equal. lia.
Qed.

Lemma remove_present_witness :
  fst (Cache_get 10000 (snd (Cache_remove 10000 world_two_entries))) = Return None /\
  fst (Cache_size (snd (Cache_remove 10000 world_two_entries))) = Return 1.
Proof.
  assert (Hnd : NoDup (dict_keys (storage world_two_entries)))
    by exact (proj1 storage_wf_two_entries).
  destruct (remove_present 10000 item_a1 world_two_entries Hnd eq_refl)
    as (_ & H2 & _ & H4).
  split; [exact H2 | exact H4].
Defined.

(** X3: [invalidate] does to the storage what [remove] does, for every id
    and every cache, present or not: same result, same storage, same
    clock and counter; only the text of the log line differs. *)
Theorem invalidate_is_remove (key : Z) (w : World) :
  fst (Cache_invalidate key w) = fst (Cache_remove key w) /\
  storage (snd (Cache_invalidate key w)) = storage (snd (Cache_remove key w)) /\
  now_calls (snd (Cache_invalidate key w)) = now_calls (snd (Cache_remove key w)) /\
  BASE_ID (snd (Cache_invalidate key w)) = BASE_ID (snd (Cache_remove key w)) /\
  map level (records (snd (Cache_invalidate key w)))
  = map level (records (snd (Cache_remove key w))).
Proof.
  unfold Cache_invalidate, Cache_remove, storage_pop, bind, get_storage,
    set_storage, ret.
  cbn. destruct (dict_get key (storage w)); cbn; rewrite !map_app;
    repeat split; reflexivity.
Qed.

(** X4: after [clear] the cache is empty whatever it held: the size is 0,
    [get] finds no id, [get_by_key] finds no key, and a sweep finds
    nothing to invalidate. *)
Theorem clear_empties_the_cache (w : World) (id : Z) (key : PyVal) :
  let w' := snd (Cache_clear w) in
  fst (Cache_clear w) = Return tt /\
  fst (Cache_size w') = Return 0 /\
  fst (Cache_get id w') = Return None /\
  fst (CacheService_get id w') = Return PNone /\
  fst (Cache_get_by_key key w') = Return None /\
  storage (snd (Cache_invalidate_expired w')) = [] /\
  BASE_ID w' = BASE_ID w.
Proof. cbv zeta. repeat split. Qed.

(** ** Reads *)

(** X5: [CacheService.get] never looks at the clock: for an id in storage
    it returns the stored value, expired or not, and leaves the world as
    it is; for an id not in storage it returns [None] and logs a warning.
    An entry whose value is [None] is answered like an absent id, though
    without the warning. *)
Theorem service_get_ignores_expiration (key : Z) (w : World) :
  (forall cache_item,
     dict_get key (storage w) = Some cache_item ->
     CacheService_get key w = (Return (_value cache_item), w)) /\
  (dict_get key (storage w) = None ->
   CacheService_get key w
   = (Return PNone,
      logged [mkLog "CacheService" WARNING
                [Lit "Cache item with ID "; Fmt (PInt key);
                 Lit " does not exist. Aborting retrieval."]] w)) /\
  (forall cache_item,
     dict_get key (storage w) = Some cache_item ->
     _value cache_item = PNone ->
     fst (CacheService_get key w) = Return PNone /\
     records (snd (CacheService_get key w)) = records w).
Proof.
  unfold CacheService_get, Cache_get, get_storage, bind, ret.
  split; [| split].
  - intros cache_item ->. reflexivity.
  - intros ->. reflexivity.
  - intros cache_item -> Hv. cbn. now rewrite Hv.
Qed.

Lemma service_get_ignores_expiration_witness :
  CacheService_get 10000 world_two_entries = (Return dict_a1, world_two_entries) /\
  fst (CacheItem_is_expired item_a1 world_two_entries) = Return true /\
  fst (CacheService_get 7 world_two_entries) = Return PNone.
Proof.
  split; [| split].
  - exact (proj1 (service_get_ignores_expiration 10000 world_two_entries)
             item_a1 eq_refl).
  - reflexivity.
  - exact (f_equal fst
             (proj1 (proj2 (service_get_ignores_expiration 7 world_two_entries))
                    eq_refl)).
Defined.

(** X6: [Cache.__contains__] answers [True] exactly for the id of a stored
    entry that is not expired at the moment of the test.  It reads the
    clock only when the id is in storage; a string, [None] or a plain
    object is the id of nothing; [True] is the id 1; a list or a
    dictionary as key raises [TypeError]. *)
Theorem contains_is_live_id (w : World) :
  (forall z cache_item,
     dict_get z (storage w) = Some cache_item ->
     Cache_contains (PInt z) w
     = (Return (negb (clock w (now_calls w) >? _expires_at cache_item)),
        after_readings 1 w)) /\
  (forall z, dict_get z (storage w) = None ->
             Cache_contains (PInt z) w = (Return false, w)) /\
  (forall s, Cache_contains (PStr s) w = (Return false, w)) /\
  Cache_contains PNone w = (Return false, w) /\
  (forall a, Cache_contains (PObject a) w = (Return false, w)) /\
  (forall b, Cache_contains (PBool b) w = Cache_contains (PInt (int_of_bool b)) w) /\
  (forall l, Cache_contains (PList l) w = (Raise (TypeError "unhashable type"), w)) /\
  (forall d, Cache_contains (PDict d) w = (Raise (TypeError "unhashable type"), w)).
Proof.
  unfold Cache_contains, storage_contains, storage_getitem, CacheItem_is_expired,
    DateUtil_now, get_storage, lift, bind, ret.
  cbn [int_key].
  split; [intros z cache_item H; cbn; rewrite H; cbn; now rewrite H |].
  split; [intros z H; cbn; now rewrite H |].
  repeat split.
Qed.

Lemma contains_is_live_id_witness :
  fst (Cache_contains (PInt 10000) world_two_entries) = Return false /\
  fst (Cache_contains (PInt 10001) world_two_entries) = Return true /\
  Cache_contains (PInt 7) world_two_entries = (Return false, world_two_entries).
Proof.
  split; [| split].
  - exact (f_equal fst
             (proj1 (contains_is_live_id world_two_entries) 10000 item_a1 eq_refl)).
  - exact (f_equal fst
             (proj1 (contains_is_live_id world_two_entries) 10001
                    (item_made_at 200000000 10001 300 (PStr "hello")) eq_refl)).
  - exact (proj1 (proj2 (contains_is_live_id world_two_entries)) 7 eq_refl).
Defined.

Lemma CacheItem_contains_run (self : CacheItem) (key : PyVal) (w : World) :
  CacheItem_contains self key w = (contains_outcome key self, w).
Proof.
  unfold contains_outcome, CacheItem_contains, try_except, lift, bind, ret.
  destruct (py_hasattr_contains (_value self)) as [[|] | e]; cbn;
    [| reflexivity | reflexivity].
  destruct (py_in key (_value self)) as [b | e]; cbn; [reflexivity |].
  now destruct (is_Exception e).
Qed.

Lemma CacheItem_is_expired_run (self : CacheItem) (w : World) :
  CacheItem_is_expired self w
  = (Return (clock w (now_calls w) >? _expires_at self), after_readings 1 w).
Proof. reflexivity. Qed.






(** A stored value whose attribute lookup raises makes [get_by_key]
    raise, once the scan reaches it while it is live. *)
Example get_by_key_raises_on_broken_value :
  let w := mkWorld (frozen 0) 1 10001 []
                   [(10000, item_made_at 0 10000 300 broken_probe)] in
  Cache_get_by_key (PStr "a") w
  = (Raise (RuntimeError "boom"), after_readings 1 w).
Proof. reflexivity. Qed.



(** A value that is not an instance of a user-defined class never makes
    the membership test raise. *)
Lemma builtin_contains_returns (key : PyVal) (c : CacheItem) :
  (forall a p m f, _value c <> PCustom a p m f) ->
  exists b, contains_outcome key c = Return b.
Proof.
  intro Hbuiltin.
  unfold contains_outcome, CacheItem_contains, try_except, lift, bind, ret.
  destruct (_value c) as [| b | z | s | l | d | a | a p m f]; cbn; eauto.
  - destruct key; cbn; eauto.
  - destruct (py_hashable key); cbn; eauto.
  - exfalso. now apply (Hbuiltin a p m f).
Qed.







(** ** Factory and builder *)

(** X10: a builder given its value and its time to live (each through
    the parameter [value] of its method, in either order) builds exactly
    the entry [CacheItemFactory.create] makes, and a later [with_value]
    replaces an earlier one.  [build] on a builder that lacks the value
    or the time to live raises [KeyError] and consumes no id. *)
Theorem builder_builds_what_factory_creates (v v' : PyVal) (t : Z) (w : World) :
  build_with v t w = CacheItemFactory_create v t w /\
  (builder <- CacheItemBuilder_init ;;
   builder <- CacheItemBuilder_with_time_to_live builder [("value", t)] ;;
   builder <- CacheItemBuilder_with_value builder [("value", v)] ;;
   CacheItemBuilder_build builder) w = CacheItemFactory_create v t w /\
  (builder <- CacheItemBuilder_init ;;
   builder <- CacheItemBuilder_with_value builder [("value", v')] ;;
   builder <- CacheItemBuilder_with_value builder [("value", v)] ;;
   builder <- CacheItemBuilder_with_time_to_live builder [("value", t)] ;;
   CacheItemBuilder_build builder) w = CacheItemFactory_create v t w /\
  (builder <- CacheItemBuilder_init ;;
   CacheItemBuilder_build builder) w = (Raise (KeyError "value"), w) /\
  (builder <- CacheItemBuilder_init ;;
   builder <- CacheItemBuilder_with_time_to_live builder [("value", t)] ;;
   CacheItemBuilder_build builder) w = (Raise (KeyError "value"), w) /\
  (builder <- CacheItemBuilder_init ;;
   builder <- CacheItemBuilder_with_value builder [("value", v)] ;;
   CacheItemBuilder_build builder) w = (Raise (KeyError "time_to_live"), w).
Proof. repeat split. Qed.

Lemma dict_get_app_fresh {V} (k : Z) (d d' : dict V) :
  ~ In k (dict_keys d) -> dict_get k (d ++ d') = dict_get k d'.
Proof.
  induction d as [| [k0 v0] d IH]; cbn; [reflexivity |].
  intro H. destruct (Z.eqb_spec k0 k); [tauto |]. apply IH. tauto.
Qed.

Lemma dict_get_app_found {V} (k : Z) (v : V) (d d' : dict V) :
  dict_get k d = Some v -> dict_get k (d ++ d') = Some v.
Proof.
  induction d as [| [k0 v0] d IH]; cbn; [discriminate |].
  destruct (k0 =? k); [trivial | exact IH].
Qed.

Lemma items_made_ids clk n b values t :
  map _id (items_made clk n b values t) = ids_from b (length values).
Proof.
  revert n b. induction values as [| v rest IH]; intros n b; cbn; [reflexivity |].
  now rewrite IH.
Qed.

Lemma items_made_length clk n b values t :
  length (items_made clk n b values t) = length values.
Proof.
  revert n b. induction values as [| v rest IH]; intros n b; cbn; [reflexivity |].
  now rewrite IH.
Qed.

Lemma items_made_get clk n b values t i v :
  nth_error values i = Some v ->
  dict_get (b + Z.of_nat i)
           (map (fun c => (_id c, c)) (items_made clk n b values t))
  = Some (item_made_at (clk (i + n)%nat) (b + Z.of_nat i) t v).
Proof.
  revert n b i. induction values as [| v0 rest IH]; intros n b i Hnth.
  - destruct i; discriminate.
  - destruct i as [| i]; cbn in Hnth |- *.
    + injection Hnth as ->. rewrite Z.add_0_r, Z.eqb_refl. reflexivity.
    + destruct (Z.eqb_spec b (b + Z.pos (Pos.of_succ_nat i))) as [E | _]; [lia |].
      replace (b + Z.pos (Pos.of_succ_nat i)) with (b + 1 + Z.of_nat i) by lia.
      rewrite (IH (S n) (b + 1) i Hnth).
      now rewrite Nat.add_succ_r.
Qed.

(** What a series of [create] and [set] leaves behind. *)
Lemma create_and_set_all_world values t w :
  (forall k, In k (dict_keys (storage w)) -> k < BASE_ID w) ->
  create_and_set_all values t w
  = (Return (ids_from (BASE_ID w) (length values)),
     mkWorld (clock w) (length values + now_calls w)
             (BASE_ID w + Z.of_nat (length values))
             (records w
              ++ map (fun c => mkLog "Cache" INFO
                                 [Lit "Cache item set with ID "; Fmt (PInt (_id c))])
                     (items_made (clock w) (now_calls w) (BASE_ID w) values t))
             (storage w
              ++ map (fun c => (_id c, c))
                     (items_made (clock w) (now_calls w) (BASE_ID w) values t))).
Proof.
  revert w. induction values as [| v rest IH]; intros w Hlt.
  - cbn. unfold ret. rewrite Z.add_0_r, !app_nil_r. now destruct w.
  - cbn [create_and_set_all].
    erewrite bind_return by apply CacheItemFactory_create_run.
    unfold Cache_set, get_storage, set_storage, log, bind, ret at 1.
    cbn [storage clock now_calls BASE_ID records item_made_at _id].
    rewrite dict_setitem_fresh by (intro Hin; apply Hlt in Hin; lia).
    rewrite IH.
    + cbn [storage clock now_calls BASE_ID records length items_made map
             item_made_at _id].
      rewrite <- !app_assoc. cbn [app].
      rewrite Nat.add_succ_r.
      replace (BASE_ID w + 1 + Z.of_nat (length rest))
        with (BASE_ID w + Z.of_nat (S (length rest))) by lia.
      reflexivity.
    + cbn. unfold dict_keys. rewrite map_app. intros k Hk.
      apply in_app_or in Hk. destruct Hk as [Hk | [<- | []]].
      * apply Hlt in Hk. lia.
      * cbn. lia.
Qed.

(** X11: the factory hands out the ids [BASE_ID], [BASE_ID + 1], ... in
    turn.  On a cache whose ids all lie below the counter, filing the new
    entries with [set] gives as many distinct ids as values, makes the
    size grow by that number, lets [get] of the [i]-th id return the
    [i]-th value, and leaves the entries that were there in place. *)
Theorem factory_ids_round_trip (values : list PyVal) (t : Z) (w : World) :
  (forall k, In k (dict_keys (storage w)) -> k < BASE_ID w) ->
  exists w',
    create_and_set_all values t w
    = (Return (ids_from (BASE_ID w) (length values)), w') /\
    NoDup (ids_from (BASE_ID w) (length values)) /\
    BASE_ID w' = BASE_ID w + Z.of_nat (length values) /\
    fst (Cache_size w')
    = Return (dict_len (storage w) + Z.of_nat (length values)) /\
    (forall i v, nth_error values i = Some v ->
                 fst (CacheService_get (BASE_ID w + Z.of_nat i) w') = Return v) /\
    (forall k c, dict_get k (storage w) = Some c ->
                 fst (Cache_get k w') = Return (Some c)).
Proof.
  intro Hlt. eexists. split; [now apply create_and_set_all_world |].
  split; [apply ids_from_NoDup |].
  split; [reflexivity |].
  unfold Cache_size, CacheService_get, Cache_get, get_storage, bind, ret.
  cbn [fst snd storage].
  split.
  - unfold dict_len. rewrite length_app, length_map, items_made_length.
    f_equal. lia.
  - split.
    + intros i v Hnth.
      rewrite dict_get_app_fresh by (intro Hin; apply Hlt in Hin; lia).
      now rewrite (items_made_get _ _ _ _ _ _ _ Hnth).
    + intros k c Hget. now rewrite (dict_get_app_found _ _ _ _ Hget).
Qed.

Lemma factory_ids_round_trip_witness :
  exists w',
    create_and_set_all [PStr "x"; PInt 5] 60 world_two_entries
    = (Return [10002; 10003], w') /\
    fst (CacheService_get 10003 w') = Return (PInt 5).
Proof.
  assert (Hlt : forall k, In k (dict_keys (storage world_two_entries)) ->
                          k < BASE_ID world_two_entries).
  { cbn. intros k [<- | [<- | []]]; lia. }
  destruct (factory_ids_round_trip [PStr "x"; PInt 5] 60 world_two_entries Hlt)
    as (w' & Hrun & _ & _ & _ & Hget & _).
  exists w'. split; [exact Hrun |].
  exact (Hget 1%nat (PInt 5) eq_refl).
Defined.

(** X12: an entry made when the clock reads [created] for [t] seconds
    expires at [created + t] seconds.  [is_expired] answers [True]
    exactly at readings strictly after that instant, so at the instant
    itself the entry still counts as live.  With [t >= 0] the expiration
    is not before the creation; with [t < 0] the entry is expired at
    every reading from its creation on. *)
Theorem entry_lifetime (v : PyVal) (t : Z) (w w1 : World) :
  let created := clock w (now_calls w) in
  let reading := clock w1 (now_calls w1) in
  exists cache_item,
    fst (CacheItemFactory_create v t w) = Return cache_item /\
    _created_at cache_item = created /\
    _expires_at cache_item = created + t * 1000000 /\
    (fst (CacheItem_is_expired cache_item w1) = Return true <->
     reading > created + t * 1000000) /\
    (0 <= t -> _created_at cache_item <= _expires_at cache_item) /\
    (t < 0 -> created <= reading ->
     fst (CacheItem_is_expired cache_item w1) = Return true).
Proof.
  cbv zeta. eexists. rewrite CacheItemFactory_create_run. cbn [fst].
  split; [reflexivity |].
  unfold item_made_at, DateUtil_increment. cbn [_created_at _expires_at].
  split; [reflexivity |]. split; [reflexivity |].
  rewrite CacheItem_is_expired_run. cbn [fst _expires_at].
  split; [| split].
  - destruct (Z.gtb_spec (clock w1 (now_calls w1))
                (clock w (now_calls w) + t * 1000000)).
    + split; [lia | reflexivity].
    + split; [discriminate | lia].
  - lia.
  - intros Ht Hmono.
    destruct (Z.gtb_spec (clock w1 (now_calls w1))
                (clock w (now_calls w) + t * 1000000)); [reflexivity | lia].
Qed.

Lemma entry_lifetime_witness :
  exists cache_item,
    fst (CacheItemFactory_create (PStr "x") (-5) (fresh_world ticking))
    = Return cache_item /\
    fst (CacheItem_is_expired cache_item (fresh_world ticking)) = Return true.
Proof.
  destruct (entry_lifetime (PStr "x") (-5) (fresh_world ticking) (fresh_world ticking))
    as (c & Hc & _ & _ & _ & _ & Hneg).
  exists c. split; [exact Hc |].
  apply Hneg; cbn; lia.
Defined.

(** ** CacheService.last_operation_at *)

(** X13: the setter of [last_operation_at] never moves the time back and
    never raises: afterwards the attribute is the later of its old value
    and the value assigned.  A refused assignment logs one warning; an
    accepted one logs nothing.  Nothing else in the service changes. *)
Theorem last_operation_at_only_moves_forward (s : Service) (value : timestamp) :
  let s' := CacheService_set_last_operation_at s value in
  _last_operation_at s' = Z.max (_last_operation_at s) value /\
  storage (world s') = storage (world s) /\
  _stop_event s' = _stop_event s /\ pc s' = pc s /\ trace s' = trace s /\
  (value < _last_operation_at s ->
   world s'
   = logged [mkLog "CacheService" WARNING
               [Lit "Last operation at time cannot be set to a past time. Aborting."]]
            (world s)) /\
  (_last_operation_at s <= value -> world s' = world s).
Proof.
  cbv zeta. unfold CacheService_set_last_operation_at.
  destruct (Z.gtb_spec (_last_operation_at s) value) as [Hgt | Hle]; cbn.
  - repeat split; try reflexivity; lia.
  - repeat split; try reflexivity; lia.
Qed.

Lemma last_operation_at_only_moves_forward_witness :
  _last_operation_at
    (CacheService_set_last_operation_at
       (mkService (fun _ => 9000000000) world_two_entries 500 300 false AtWhile []) 100) = 500 /\
  world (CacheService_set_last_operation_at
           (mkService (fun _ => 9000000000) world_two_entries 500 300 false AtWhile []) 700)
  = world_two_entries.
Proof.
  split.
  - exact (proj1 (last_operation_at_only_moves_forward
                    (mkService (fun _ => 9000000000) world_two_entries 500 300 false AtWhile []) 100)).
  - apply (proj2 (proj2 (proj2 (proj2 (proj2 (proj2
             (last_operation_at_only_moves_forward
                (mkService (fun _ => 9000000000) world_two_entries 500 300 false AtWhile []) 700))))))).
    cbn. lia.
Defined.

(** ** The sweep on any storage *)

Lemma Cache_invalidate_run key w :
  exists line,
    Cache_invalidate key w
    = (Return tt, logged [line] (with_storage (dict_remove key (storage w)) w)).
Proof.
  unfold Cache_invalidate, storage_pop, bind, get_storage, set_storage, ret.
  cbn. destruct (dict_get key (storage w)); eexists; reflexivity.
Qed.

Lemma for_each_invalidate_any ids w :
  exists recs,
    for_each ids Cache_invalidate w
    = (Return tt, logged recs (with_storage (remove_all ids (storage w)) w)).
Proof.
  revert w. induction ids as [| k ids IH]; intro w.
  - exists []. cbn. unfold ret. rewrite logged_nil. now destruct w.
  - destruct (Cache_invalidate_run k w) as [line Hk].
    cbn [for_each]. erewrite bind_return by exact Hk.
    destruct (IH (logged [line] (with_storage (dict_remove k (storage w)) w)))
      as [recs Hrest].
    rewrite Hrest. exists (line :: recs).
    unfold logged, with_storage. cbn. rewrite <- app_assoc. reflexivity.
Qed.

Lemma Cache_invalidate_expired_any w :
  exists recs ids,
    Cache_invalidate_expired w
    = (Return tt,
       logged recs (with_storage (remove_all ids (storage w))
                                 (after_readings (length (storage w)) w))).
Proof.
  unfold Cache_invalidate_expired.
  change (bind get_storage ?k w) with (k (storage w) w). cbv beta.
  erewrite bind_return by apply expired_ids_of_run.
  replace (length (dict_values (storage w))) with (length (storage w))
    by (unfold dict_values; now rewrite length_map).
  destruct (Z.of_nat _ =? 0).
  - eexists. exists []. reflexivity.
  - match goal with
    | |- context [for_each ?ids Cache_invalidate] =>
        destruct (for_each_invalidate_any ids
                    (after_readings (length (storage w)) w)) as [recs Hrun];
        exists (recs ++ [mkLog "Cache" INFO [Lit "Expired cache items invalidated"]]),
               ids
    end.
    erewrite bind_return by exact Hrun.
    rewrite log_run, logged_logged. reflexivity.
Qed.

Lemma dict_remove_incl {V} (k : Z) (d : dict V) : incl (dict_remove k d) d.
Proof.
  induction d as [| [k0 v0] d IH]; cbn; [apply incl_refl |].
  destruct (k0 =? k).
  - apply incl_tl, incl_refl.
  - intros x [<- | Hx]; [now left | right; now apply IH].
Qed.

Lemma dict_remove_shorter {V} (k : Z) (d : dict V) :
  (length (dict_remove k d) <= length d)%nat.
Proof.
  induction d as [| [k0 v0] d IH]; cbn; [lia |].
  destruct (k0 =? k); cbn; lia.
Qed.

Lemma remove_all_incl {V} ids (d : dict V) : incl (remove_all ids d) d.
Proof.
  revert d. induction ids as [| k ids IH]; intro d; [apply incl_refl |].
  cbn. eapply incl_tran; [apply IH | apply dict_remove_incl].
Qed.

Lemma remove_all_shorter {V} ids (d : dict V) :
  (length (remove_all ids d) <= length d)%nat.
Proof.
  revert d. induction ids as [| k ids IH]; intro d; cbn; [lia |].
  etransitivity; [apply IH | apply dict_remove_shorter].
Qed.

(** X14: on every storage, also one filled past the cache's methods,
    [invalidate_expired] returns normally and only removes: what is left
    are entries that were there, unchanged; none is added; the id counter
    is untouched, and the clock has been read once per stored entry. *)
Theorem sweep_only_removes (w : World) :
  let w' := snd (Cache_invalidate_expired w) in
  fst (Cache_invalidate_expired w) = Return tt /\
  incl (storage w') (storage w) /\
  (length (storage w') <= length (storage w))%nat /\
  BASE_ID w' = BASE_ID w /\
  now_calls w' = (length (storage w) + now_calls w)%nat /\
  clock w' = clock w.
Proof.
  cbv zeta. destruct (Cache_invalidate_expired_any w) as (recs & ids & ->).
  cbn. repeat split; [apply remove_all_incl | apply remove_all_shorter].
Qed.

Lemma filter_idempotent {A} (f : A -> bool) (l : list A) :
  filter f (filter f l) = filter f l.
Proof.
  induction l as [| a l IH]; cbn; [reflexivity |].
  destruct (f a) eqn:E; cbn; [rewrite E |]; congruence.
Qed.

Lemma find_filter_live {A} (p q : A -> bool) (l : list A) :
  find (fun a => p a && q a) (filter p l) = find (fun a => p a && q a) l.
Proof.
  induction l as [| a l IH]; cbn; [reflexivity |].
  destruct (p a) eqn:E; cbn; [rewrite E; cbn; now rewrite IH | exact IH].
Qed.

Lemma filter_map_snd {K A} (f : A -> bool) (d : list (K * A)) :
  map snd (filter (fun kv => f (snd kv)) d) = filter f (map snd d).
Proof.
  induction d as [| [k a] d IH]; cbn; [reflexivity |].
  destruct (f a); cbn; now rewrite IH.
Qed.

(** What a sweep leaves when the clock stands at [t]. *)
Lemma sweep_at_fixed_time (w : World) (t : timestamp) :
  storage_wf (storage w) -> (forall n, clock w n = t) ->
  storage (snd (Cache_invalidate_expired w))
  = filter (fun kv => live_at t (snd kv)) (storage w) /\
  (forall n, clock (snd (Cache_invalidate_expired w)) n = t) /\
  storage_wf (storage (snd (Cache_invalidate_expired w))).
Proof.
  intros Hwf Ht.
  split; [| split].
  - rewrite (Cache_invalidate_expired_run w Hwf). cbn [snd].
    assert (Hs : survivors (storage w)
                   (scan_flags (clock w) (now_calls w) (dict_values (storage w)))
                 = filter (fun kv => live_at t (snd kv)) (storage w)).
    { apply survivors_frozen. intros i _. apply Ht. }
    destruct (existsb _ _) eqn:E; cbn [storage logged with_storage after_readings].
    + exact Hs.
    + rewrite <- Hs. symmetry. apply survivors_all; [| exact E].
      rewrite scan_flags_length. apply length_map.
  - destruct (Cache_invalidate_expired_any w) as (recs & ids & ->). exact Ht.
  - now apply methods_keep_storage_wf.
Qed.

Lemma scan_of_live_entries clk (t : timestamp) (d : dict CacheItem) n :
  (forall m, clk m = t) ->
  existsb (fun b => b)
    (scan_flags clk n
       (dict_values (filter (fun kv => live_at t (snd kv)) d)))
  = false.
Proof.
  intro Ht. revert n. induction d as [| [k c] d IH]; intro n; [reflexivity |].
  cbn [filter snd]. destruct (live_at t c) eqn:E; [| apply IH].
  cbn [dict_values map snd scan_flags existsb].
  rewrite Ht. unfold live_at in E.
  destruct (t >? _expires_at c); [discriminate |]. cbn. apply IH.
Qed.

(** X15: with the clock standing still, a second sweep right after a
    sweep finds nothing to do: it logs the warning and leaves the storage
    as the first sweep left it. *)
Theorem second_sweep_removes_nothing (w : World) (t : timestamp) :
  storage_wf (storage w) -> (forall n, clock w n = t) ->
  let w1 := snd (Cache_invalidate_expired w) in
  let w2 := snd (Cache_invalidate_expired w1) in
  storage w2 = storage w1 /\
  records w2
  = records w1
    ++ [mkLog "Cache" WARNING
          [Lit "No expired cache items found. Aborting invalidation."]].
Proof.
  intros Hwf Ht. cbv zeta.
  destruct (sweep_at_fixed_time w t Hwf Ht) as (Hst1 & Ht1 & Hwf1).
  set (w1 := snd (Cache_invalidate_expired w)) in *.
  assert (Hflags : existsb (fun b => b)
                     (scan_flags (clock w1) (now_calls w1) (dict_values (storage w1)))
                   = false).
  { rewrite Hst1. now apply scan_of_live_entries. }
  rewrite (Cache_invalidate_expired_run w1 Hwf1). cbn [snd].
  rewrite Hflags. split; reflexivity.
Qed.

Lemma second_sweep_removes_nothing_witness :
  storage (snd (Cache_invalidate_expired
                  (snd (Cache_invalidate_expired world_two_entries))))
  = storage (snd (Cache_invalidate_expired world_two_entries)).
Proof.
  exact (proj1 (second_sweep_removes_nothing world_two_entries 301000000
                  storage_wf_two_entries (fun n => eq_refl))).
Defined.

(** At a fixed time the scan of [get_by_key] meets, on the entries that
    are live, what it meets on all of them. *)
Lemma first_live_with_filter (key : PyVal) (items : list CacheItem)
  (w1 w2 : World) (t : timestamp) :
  (forall n, clock w1 n = t) -> (forall n, clock w2 n = t) ->
  fst (first_live_with key (filter (live_at t) items) w1)
  = fst (first_live_with key items w2).
Proof.
  revert w1 w2. induction items as [| item rest IH]; intros w1 w2 H1 H2;
    [reflexivity |].
  cbn [filter]. cbn [first_live_with].
  rewrite (bind_cases _ _ _ _ _ (CacheItem_is_expired_run item w2)), H2.
  unfold live_at at 1.
  destruct (t >? _expires_at item) eqn:E; cbn [negb].
  - now apply IH.
  - cbn [first_live_with].
    rewrite (bind_cases _ _ _ _ _ (CacheItem_is_expired_run item w1)), H1, E.
    cbn [negb].
    rewrite (bind_cases _ _ _ _ _ (CacheItem_contains_run item key _)).
    rewrite (bind_cases _ _ _ _ _ (CacheItem_contains_run item key _)).
    destruct (contains_outcome key item) as [[|] | e]; [reflexivity | | reflexivity].
    now apply IH.
Qed.

(** X16: with the clock standing still, a sweep does not change what the
    cache answers: [get_by_key] returns the same entry for every key
    after the sweep as before, and the size after the sweep is the number
    of entries that were not expired. *)
Theorem sweep_keeps_answers (key : PyVal) (w : World) (t : timestamp) :
  storage_wf (storage w) -> (forall n, clock w n = t) ->
  let w' := snd (Cache_invalidate_expired w) in
  fst (Cache_get_by_key key w') = fst (Cache_get_by_key key w) /\
  fst (Cache_size w')
  = Return (Z.of_nat (length (filter (live_at t) (dict_values (storage w))))).
Proof.
  intros Hwf Ht. cbv zeta.
  destruct (sweep_at_fixed_time w t Hwf Ht) as (Hst & Ht' & _).
  split.
  - unfold Cache_get_by_key.
    change (bind get_storage ?f ?x) with (f (storage x) x). cbv beta.
    rewrite Hst. unfold dict_values at 1.
    rewrite (filter_map_snd (live_at t)).
    now apply first_live_with_filter.
  - unfold Cache_size, get_storage, bind, ret. cbn [fst]. rewrite Hst.
    unfold dict_len, dict_values.
    rewrite <- (filter_map_snd (live_at t)). now rewrite length_map.
Qed.

Lemma sweep_keeps_answers_witness :
  fst (Cache_get_by_key (PStr "a")
         (snd (Cache_invalidate_expired world_two_entries)))
  = fst (Cache_get_by_key (PStr "a") world_two_entries) /\
  fst (Cache_size (snd (Cache_invalidate_expired world_two_entries))) = Return 1.
Proof.
  exact (sweep_keeps_answers (PStr "a") world_two_entries 301000000
           storage_wf_two_entries (fun n => eq_refl)).
Defined.

(** ** The life of the background thread *)

Lemma cleanup_body_keeps_BASE_ID w : BASE_ID (snd (cleanup_body w)) = BASE_ID w.
Proof.
  rewrite cleanup_body_run. cbn [snd].
  destruct (Cache_invalidate_expired_any
              (logged [mkLog "CacheService" DEBUG
                         [Lit "Running periodic cache cleanup"]] w))
    as (recs & ids & ->).
  reflexivity.
Qed.

(** One round of the loop, from the test of the [while] back to it. *)
Lemma round_of_the_loop (s : Service) :
  pc s = AtWhile -> _stop_event s = false ->
  0 <= service_time_to_live s <= longest_timestamp ->
  service_time_to_live s <= sleep_limit s (length (trace s)) ->
  Nat.iter 4 thread_step s
  = mkService (sleep_limit s)
              (after_readings 1 (snd (cleanup_body (world s))))
              (clock (snd (cleanup_body (world s)))
                     (now_calls (snd (cleanup_body (world s)))))
              (service_time_to_live s) false AtWhile
              (trace s ++ [Slept (service_time_to_live s); Swept;
                           Updated (clock (snd (cleanup_body (world s)))
                                          (now_calls (snd (cleanup_body (world s)))))]).
Proof.
  intros Hpc Hstop Hrange Hlimit.
  change (Nat.iter 4 thread_step s)
    with (thread_step (thread_step (thread_step (thread_step s)))).
  rewrite (step_AtWhile_unset s Hpc Hstop).
  match goal with
  | |- context [thread_step (thread_step (thread_step ?x))] =>
      rewrite (step_AtSleep x eq_refl (sleep_returns x Hrange Hlimit))
  end.
  match goal with
  | |- context [thread_step (thread_step ?x)] =>
      rewrite (step_AtCleanup x eq_refl)
  end.
  match goal with
  | |- context [thread_step ?x] => rewrite (step_AtUpdate x eq_refl)
  end.
  cbn. rewrite <- !app_assoc. reflexivity.
Qed.

Lemma step_keeps_running (s : Service) :
  _stop_event s = false ->
  0 <= service_time_to_live s <= longest_timestamp ->
  (forall i, service_time_to_live s <= sleep_limit s i) ->
  pc s <> Done ->
  _stop_event (thread_step s) = false /\
  service_time_to_live (thread_step s) = service_time_to_live s /\
  sleep_limit (thread_step s) = sleep_limit s /\
  pc (thread_step s) <> Done.
Proof.
  intros Hstop Hrange Hlimit Hpc. destruct (pc s) eqn:E.
  - rewrite (step_AtWhile_unset s E Hstop). cbn. repeat split. discriminate.
  - rewrite (step_AtSleep s E (sleep_returns s Hrange (Hlimit _))). cbn.
    repeat split; [assumption | discriminate].
  - rewrite (step_AtCleanup s E). cbn. repeat split; [assumption | discriminate].
  - rewrite (step_AtUpdate s E). cbn. repeat split; [assumption | discriminate].
  - contradiction.
Qed.

(** X17: take the thread running on its own, no other thread changing
    the cache under a sweep, with a sweep interval from 0 to 9223372036
    seconds that the platform accepts at every sleep.  As long as the
    stop signal is not set the thread never ends: after any number of
    statements it is still running.  Each round of four statements from
    the test of the loop performs one sweep and comes back to the test,
    so [n] rounds perform [n] sweeps; the id counter is never touched. *)
Theorem thread_runs_until_stopped (s : Service) (n : nat) :
  _stop_event s = false ->
  0 <= service_time_to_live s <= 9223372036 ->
  (forall i, service_time_to_live s <= sleep_limit s i) ->
  pc s <> Done ->
  pc (Nat.iter n thread_step s) <> Done /\
  _stop_event (Nat.iter n thread_step s) = false /\
  (pc s = AtWhile ->
   let s' := Nat.iter n (Nat.iter 4 thread_step) s in
   pc s' = AtWhile /\
   sweeps (trace s') = (sweeps (trace s) + n)%nat /\
   BASE_ID (world s') = BASE_ID (world s)).
Proof.
  intros Hstop Hrange Hlimit Hpc.
  assert (Hinv : _stop_event (Nat.iter n thread_step s) = false /\
                 service_time_to_live (Nat.iter n thread_step s)
                 = service_time_to_live s /\
                 sleep_limit (Nat.iter n thread_step s) = sleep_limit s /\
                 pc (Nat.iter n thread_step s) <> Done).
  { induction n as [| n IH]; [repeat split; assumption |].
    rewrite Nat.iter_succ. destruct IH as (H1 & H2 & H3 & H4).
    destruct (step_keeps_running _ H1
                ltac:(rewrite H2; exact Hrange)
                ltac:(rewrite H2, H3; exact Hlimit) H4)
      as (H5 & H6 & H7 & H8).
    repeat split; try assumption; congruence. }
  split; [apply Hinv |]. split; [apply Hinv |].
  intro Hwhile. cbv zeta. clear Hinv Hpc.
  assert (Hrounds : pc (Nat.iter n (Nat.iter 4 thread_step) s) = AtWhile /\
                    _stop_event (Nat.iter n (Nat.iter 4 thread_step) s) = false /\
                    service_time_to_live (Nat.iter n (Nat.iter 4 thread_step) s)
                    = service_time_to_live s /\
                    sleep_limit (Nat.iter n (Nat.iter 4 thread_step) s)
                    = sleep_limit s /\
                    sweeps (trace (Nat.iter n (Nat.iter 4 thread_step) s))
                    = (sweeps (trace s) + n)%nat /\
                    BASE_ID (world (Nat.iter n (Nat.iter 4 thread_step) s))
                    = BASE_ID (world s)).
  { induction n as [| n IH]; [repeat split; try assumption; cbn; lia |].
    rewrite Nat.iter_succ. destruct IH as (H1 & H2 & H3 & H4 & H5 & H6).
    rewrite (round_of_the_loop _ H1 H2
               ltac:(rewrite H3; exact Hrange)
               ltac:(rewrite H3, H4; apply Hlimit)).
    cbn [pc _stop_event service_time_to_live sleep_limit trace world
         after_readings BASE_ID].
    rewrite cleanup_body_keeps_BASE_ID, sweeps_app, H5. cbn [sweeps].
    repeat split; try assumption. lia. }
  destruct Hrounds as (H1 & _ & _ & _ & H5 & H6). repeat split; assumption.
Qed.

Lemma thread_runs_until_stopped_witness :
  pc (Nat.iter 7 thread_step service_two_entries) <> Done /\
  sweeps (trace (Nat.iter 3 (Nat.iter 4 thread_step) service_two_entries)) = 3%nat.
Proof.
  destruct (thread_runs_until_stopped service_two_entries 7
              eq_refl ltac:(cbn; lia) ltac:(intro i; cbn; lia)
              ltac:(cbn; discriminate)) as (H1 & _).
  destruct (thread_runs_until_stopped service_two_entries 3
              eq_refl ltac:(cbn; lia) ltac:(intro i; cbn; lia)
              ltac:(cbn; discriminate)) as (_ & _ & H3).
  split; [exact H1 |]. exact (proj1 (proj2 (H3 eq_refl))).
Defined.

(** X18: a service made with a [time_to_live] that [time.sleep] refuses
    on every platform (a negative one, or one beyond 9223372036 seconds)
    has a thread that dies at its first sleep: from the second statement
    on the thread is finished, it has never swept, and the world is as
    the constructor left it.  The exception is [ValueError] for an
    interval from -9223372036 to -1 and [OverflowError] for one beyond
    9223372036 seconds on either side of zero. *)
Theorem refused_interval_kills_the_thread
  (time_to_live : Z) (limit : nat -> Z) (w : World) (n : nat) :
  time_to_live < 0 \/ 9223372036 < time_to_live ->
  let s := CacheService_init time_to_live limit w in
  let s' := Nat.iter (2 + n) thread_step s in
  pc s = AtWhile /\
  pc s' = Done /\
  sweeps (trace s') = O /\
  world s' = world s /\
  (-9223372036 <= time_to_live < 0 ->
   trace s' = [Died (ValueError "sleep length must be non-negative")]) /\
  (9223372036 < Z.abs time_to_live ->
   exists msg, trace s' = [Died (OverflowError msg)]).
Proof.
  intro Hrefused. cbv zeta.
  split; [reflexivity |].
  set (s := CacheService_init time_to_live limit w).
  assert (Hsleep : exists e,
            sleep_outcome (thread_step s) = Raise e /\
            (-9223372036 <= time_to_live < 0 ->
             e = ValueError "sleep length must be non-negative") /\
            (9223372036 < Z.abs time_to_live -> exists msg, e = OverflowError msg)).
  { rewrite (step_AtWhile_unset s eq_refl eq_refl).
    match goal with
    | |- context [sleep_outcome ?x] =>
        destruct (sleep_refuses x) as (Hneg & Hover)
    end.
    cbn [service_time_to_live] in Hneg, Hover.
    change (service_time_to_live s) with time_to_live in Hneg, Hover.
    unfold longest_timestamp in Hneg, Hover.
    destruct (Z_lt_le_dec 9223372036 (Z.abs time_to_live)) as [Hbig | Hsmall].
    - destruct (Hover Hbig) as [msg Hmsg]. eexists. split; [exact Hmsg |].
      split; [lia | intros _; now exists msg].
    - eexists. split; [apply Hneg; lia |].
      split; [reflexivity | lia]. }
  destruct Hsleep as (e & He & Hval & Hovf).
  assert (H2 : Nat.iter 2 thread_step s
               = mkService limit (world s) (_last_operation_at s)
                           time_to_live false Done [Died e]).
  { change (Nat.iter 2 thread_step s) with (thread_step (thread_step s)).
    rewrite (step_AtSleep_raises (thread_step s) e); [| | exact He].
    - rewrite (step_AtWhile_unset s eq_refl eq_refl). reflexivity.
    - rewrite (step_AtWhile_unset s eq_refl eq_refl). reflexivity. }
  rewrite Nat.add_comm, Nat.iter_add, H2, iter_Done.
  - cbn [pc trace world sweeps]. split; [reflexivity |].
    split; [reflexivity |]. split; [reflexivity |].
    split.
    + intro H. now rewrite (Hval H).
    + intro H. destruct (Hovf H) as [msg ->]. now exists msg.
  - intros s0 Hs0. unfold thread_step. now rewrite Hs0; destruct s0.
  - reflexivity.
Qed.

Lemma refused_interval_kills_the_thread_witness :
  pc (Nat.iter 5 thread_step
        (CacheService_init (-1) (fun _ => 9000000000) (fresh_world ticking)))
  = Done /\
  trace (Nat.iter 5 thread_step
           (CacheService_init (-1) (fun _ => 9000000000) (fresh_world ticking)))
  = [Died (ValueError "sleep length must be non-negative")].
Proof.
  destruct (refused_interval_kills_the_thread
              (-1) (fun _ => 9000000000) (fresh_world ticking) 3
              ltac:(left; lia)) as (_ & H2 & _ & _ & H5 & _).
  split; [exact H2 |]. apply H5. lia.
Defined.

Lemma join_more_fuel (fuel extra : nat) (s s' : Service) :
  join fuel s = Some s' -> join (fuel + extra) s = Some s'.
Proof.
  revert s. induction fuel as [| fuel IH]; intros s H.
  - cbn in H. destruct (pc s) eqn:E; try discriminate.
    destruct extra; cbn; now rewrite E.
  - cbn in H |- *. destruct (pc s); try (now apply IH). exact H.
Qed.

Lemma join_after_stop (s : Service) :
  _stop_event s = true ->
  exists s', join 4 s = Some s' /\ pc s' = Done /\ _stop_event s' = true /\
             (sweeps (trace s') <= sweeps (trace s) + 1)%nat /\
             incl (storage (world s')) (storage (world s)) /\
             BASE_ID (world s') = BASE_ID (world s).
Proof.
  intro Hstop. destruct s as [lim w la ttl stop p tr]. cbn in Hstop. subst stop.
  assert (Hincl : incl (storage (snd (cleanup_body w))) (storage w)).
  { rewrite cleanup_body_run. cbn [snd].
    destruct (Cache_invalidate_expired_any
                (logged [mkLog "CacheService" DEBUG
                           [Lit "Running periodic cache cleanup"]] w))
      as (recs & ids & ->).
    cbn. apply remove_all_incl. }
  pose proof (cleanup_body_keeps_BASE_ID w) as Hbase.
  rewrite cleanup_body_run in Hincl, Hbase. cbn [snd] in Hincl, Hbase.
  destruct p; cbn [join pc thread_step world _stop_event service_time_to_live];
    try match goal with
        | |- context [sleep_outcome ?x] => destruct (sleep_outcome x)
        end;
    cbn [join pc thread_step world _stop_event service_time_to_live];
    rewrite ?cleanup_body_run; cbn [join pc thread_step world _stop_event
                                    DateUtil_now];
    eexists; (split; [reflexivity |]);
    cbn [pc _stop_event trace world storage BASE_ID];
    rewrite ?sweeps_app; cbn [sweeps];
    repeat split; try lia; try apply incl_refl; try assumption.
Qed.

(** X19: [shutdown] returns, on every state of the service and for every
    patience of at least four statements of the thread: the thread is
    finished and the signal set.  At most one sweep runs after the call,
    the one the thread was about to do; entries are only removed, never
    added, and the id counter is untouched. *)
Theorem shutdown_stops_after_at_most_one_sweep (s : Service) (extra : nat) :
  exists s',
    CacheService_shutdown (4 + extra) s = Some s' /\
    pc s' = Done /\ _stop_event s' = true /\
    (sweeps (trace s') <= sweeps (trace s) + 1)%nat /\
    incl (storage (world s')) (storage (world s)) /\
    BASE_ID (world s') = BASE_ID (world s).
Proof.
  unfold CacheService_shutdown.
  destruct (join_after_stop (shutdown_set s) eq_refl)
    as (s1 & Hjoin & Hpc & Hstop & Hsw & Hincl & Hbase).
  rewrite (join_more_fuel 4 extra _ _ Hjoin). cbn.
  eexists. split; [reflexivity |]. cbn.
  repeat split; assumption.
Qed.
